(** * Nachos file system: file headers and directories

    A shallow embedding of [filesys/filehdr.cc] and [filesys/directory.cc]
    and the properties of their operations.

    C [int]s are modelled as [Z] (the operations below stay far from the
    range where signed arithmetic would overflow, which C++ leaves
    undefined), arrays as lists updated by index, and the three ways a call
    can end as the [outcome] type: a normal return, a failed [ASSERT]
    (the process aborts) and undefined behaviour (an access outside an
    array, a read of an uninitialised variable). *)

From Stdlib Require Import ZArith Ascii String Lia.
From stdpp Require Import base list.

Local Open Scope Z_scope.

(** ** Outcomes of a call *)

Inductive outcome (A : Type) : Type :=
  | Ok (a : A)      (* the call returns *)
  | Abort           (* an ASSERT failed: the process is aborted *)
  | Fault.          (* undefined behaviour *)

Arguments Ok {A} a.
Arguments Abort {A}.
Arguments Fault {A}.

#[global] Instance outcome_ret : MRet outcome := λ _ a, Ok a.

#[global] Instance outcome_bind : MBind outcome := λ _ _ f m,
  match m with
  | Ok a => f a
  | Abort => Abort
  | Fault => Fault
  end.

Definition ASSERT (b : bool) : outcome unit :=
  if b then Ok tt else Abort.

(** ** Constants of the build

    [filehdr.h], [directory.h] and [disk.h] are not among the sources; the
    values they fix are taken as parameters. [FileNameMaxLen] is at most 9,
    the size of the buffers [File] of [Add] and [Remove], on which it bounds
    a [strncpy] and a [strncmp]. *)

Record Constants : Type := {
  SectorSize : Z;          (* S: bytes per sector *)
  SectorNumPerList : Z;    (* L: sector numbers per index sector *)
  NumSectors : Z;          (* number of sectors of the disk *)
  MaxLists : nat;          (* length of dataSectorLists *)
  NumDirEntries : nat;     (* M: entries of a directory loaded from disk *)
  FileNameMaxLen : nat     (* NAME_MAX *)
}.

(** The values of the stock Nachos build: sectors of 128 bytes, so 32 sector
    numbers each, a disk of 1024 sectors, names of 9 bytes, directories of 10
    entries; a header of one sector has room for 29 lists. *)
Definition nachos : Constants :=
  {| SectorSize := 128; SectorNumPerList := 32; NumSectors := 1024;
     MaxLists := 29; NumDirEntries := 10; FileNameMaxLen := 9 |}.

(** Modelled from the spec: the macro [divRoundUp] of [lib/utility.h], the
    ceiling of [n / s], with C's truncating division. *)
Definition divRoundUp (n s : Z) : Z :=
  Z.quot n s + (if 0 <? Z.rem n s then 1 else 0).

(** ** The free-sector bitmap *)

Module Bitmap.

(** Modelled from the spec: the free bitmap ([lib/bitmap.cc] and
    [filesys/pbitmap.cc] are not among the sources), a persistent set over
    the sector numbers supporting test, find-and-set, clear and count-clear.
    A set bit is [true]; find-and-set takes the lowest clear bit. A bit
    outside the map is a fatal inconsistency. *)
Abbreviation t := (list bool).

Definition in_range (b : t) (which : Z) : bool :=
  (0 <=? which) && (which <? Z.of_nat (length b)).

Definition Test (b : t) (which : Z) : outcome bool :=
  _ ← ASSERT (in_range b which);
  Ok (nth (Z.to_nat which) b false).

Definition Clear (b : t) (which : Z) : outcome t :=
  _ ← ASSERT (in_range b which);
  Ok (<[Z.to_nat which := false]> b).

Fixpoint find_clear (b : t) : option nat :=
  match b with
  | [] => None
  | x :: b' => if x then S <$> find_clear b' else Some O
  end.

Definition FindAndSet (b : t) : Z * t :=
  match find_clear b with
  | Some i => (Z.of_nat i, <[i := true]> b)
  | None => (-1, b)
  end.

Fixpoint count_clear (b : t) : nat :=
  match b with
  | [] => O
  | x :: b' => if x then count_clear b' else S (count_clear b')
  end.

Definition NumClear (b : t) : Z := Z.of_nat (count_clear b).

(** The bit of sector [which], [false] outside the map. *)
Definition bit (b : t) (which : Z) : bool :=
  in_range b which && nth (Z.to_nat which) b false.

End Bitmap.

(** ** The disk, as the file header sees it *)

(** Modelled from the spec: the block device ([machine/disk.cc] and
    [filesys/synchdisk.cc] are not among the sources). A sector is read and
    written as [SectorNumPerList] consecutive sector numbers; sector numbers
    lie in [0, NumSectors). *)
Definition Disk := Z → list Z.

Definition sector_in_range (K : Constants) (sector : Z) : bool :=
  (0 <=? sector) && (sector <? NumSectors K).

Definition ReadSector (K : Constants) (disk : Disk) (sector : Z)
  : outcome (list Z) :=
  _ ← ASSERT (sector_in_range K sector);
  Ok (disk sector).

Definition WriteSector (K : Constants) (disk : Disk) (sector : Z)
  (data : list Z) : outcome Disk :=
  _ ← ASSERT (sector_in_range K sector);
  Ok (λ s, if s =? sector then data else disk s).

(** ** File headers ([filehdr.cc]) *)

Module FileHdr.

(** The fields the code uses. The array [dataSectors] of the stock header is
    only touched by the constructor and is left out. *)
Record FileHeader : Type := {
  numBytes : Z;
  numSectors : Z;
  numLists : Z;
  dataSectorLists : list Z
}.

(** [dataSectorLists[i] = s] *)
Definition set_list (h : FileHeader) (i : nat) (s : Z) : FileHeader :=
  {| numBytes := numBytes h; numSectors := numSectors h;
     numLists := numLists h;
     dataSectorLists := <[i := s]> (dataSectorLists h) |}.

(** The inner loop of [Allocate]: [n] iterations left, the next slot of
    [buffer] is [j]. *)
Fixpoint fill_buffer (n j : nat) (buffer : list Z) (freeMap : Bitmap.t)
  : outcome (list Z * Bitmap.t) :=
  match n with
  | O => Ok (buffer, freeMap)
  | S n' =>
      let '(s, freeMap') := Bitmap.FindAndSet freeMap in
      if (length buffer <=? j)%nat then Fault
      else
        _ ← ASSERT (0 <=? s);
        fill_buffer n' (S j) (<[j := s]> buffer) freeMap'
  end.

(** [array[idx]] for an [int] index. *)
Definition index {A} (l : list A) (idx : Z) : option A :=
  if 0 <=? idx then l !! Z.to_nat idx else None.

Section WithConstants.

Variable K : Constants.

(** [FileHeader::FileHeader] *)
Definition new : FileHeader :=
  {| numBytes := -1; numSectors := -1; numLists := -1;
     dataSectorLists := replicate (MaxLists K) (-1) |}.

(** The bound of the inner loop as [Allocate] computes it: against
    [NumSectors], the size of the disk. *)
Definition lastSectorNum_alloc (nowNumSectors : Z) : Z :=
  if NumSectors K <? nowNumSectors + SectorNumPerList K then NumSectors K
  else nowNumSectors + SectorNumPerList K.

(** The outer loop of [Allocate]: [n] iterations left, the next list is
    [i]. *)
Fixpoint alloc_lists (n i : nat) (h : FileHeader) (freeMap : Bitmap.t)
  (disk : Disk) : outcome (FileHeader * Bitmap.t * Disk) :=
  match n with
  | O => Ok (h, freeMap, disk)
  | S n' =>
      let nowNumSectors := Z.of_nat i * SectorNumPerList K in
      let '(s, freeMap1) := Bitmap.FindAndSet freeMap in
      if (length (dataSectorLists h) <=? i)%nat then Fault
      else
        _ ← ASSERT (0 <=? s);
        '(buffer, freeMap2) ←
          fill_buffer
            (Z.to_nat (lastSectorNum_alloc nowNumSectors - nowNumSectors))
            O (replicate (Z.to_nat (SectorNumPerList K)) 0) freeMap1;
        disk1 ← WriteSector K disk s buffer;
        alloc_lists n' (S i) (set_list h i s) freeMap2 disk1
  end.

(** The header once the first three assignments of [Allocate] are done. *)
Definition header_of (h : FileHeader) (fileSize : Z) : FileHeader :=
  {| numBytes := fileSize;
     numSectors := divRoundUp fileSize (SectorSize K);
     numLists :=
       divRoundUp (divRoundUp fileSize (SectorSize K)) (SectorNumPerList K);
     dataSectorLists := dataSectorLists h |}.

(** [FileHeader::Allocate]: the result, the header, the free map and the
    disk after the call. *)
Definition Allocate (h : FileHeader) (freeMap : Bitmap.t) (disk : Disk)
  (fileSize : Z) : outcome (bool * FileHeader * Bitmap.t * Disk) :=
  let h0 := header_of h fileSize in
  if Bitmap.NumClear freeMap <? numSectors h0 then Ok (false, h0, freeMap, disk)
  else
    '(h1, freeMap1, disk1) ←
      alloc_lists (Z.to_nat (numLists h0)) O h0 freeMap disk;
    Ok (true, h1, freeMap1, disk1).

(** The inner loop of [Deallocate]: [n] iterations left, the next slot
    is [j]. *)
Fixpoint clear_loop (n j : nat) (buffer : nat → Z) (freeMap : Bitmap.t)
  : outcome Bitmap.t :=
  match n with
  | O => Ok freeMap
  | S n' =>
      if (Z.to_nat (SectorNumPerList K) <=? j)%nat then Fault
      else
        b ← Bitmap.Test freeMap (buffer j);
        _ ← ASSERT b;
        freeMap' ← Bitmap.Clear freeMap (buffer j);
        clear_loop n' (S j) buffer freeMap'
  end.

(** The bound of the inner loop as [Deallocate] computes it. *)
Definition lastSectorNum (h : FileHeader) (nowNumSectors : Z) : Z :=
  if numSectors h <? nowNumSectors + SectorNumPerList K then numSectors h
  else nowNumSectors + SectorNumPerList K.

(** The outer loop of [Deallocate]. *)
Fixpoint dealloc_lists (n i : nat) (heap : nat → nat → Z) (h : FileHeader)
  (freeMap : Bitmap.t) : outcome Bitmap.t :=
  match n with
  | O => Ok freeMap
  | S n' =>
      let nowNumSectors := Z.of_nat i * SectorNumPerList K in
      freeMap' ←
        clear_loop (Z.to_nat (lastSectorNum h nowNumSectors)) O (heap i) freeMap;
      dealloc_lists n' (S i) heap h freeMap'
  end.

(** [FileHeader::Deallocate]. The source declares [int buffer = new
    int[SectorNumPerList]] and then indexes [buffer]; it is read here as the
    array that the [new] and the [delete []] make it. Nothing is stored in
    that array before it is read: its contents are whatever the allocator
    hands out, the parameter [heap] ([heap i j] is slot [j] of the buffer of
    iteration [i]). The disk is not an argument: the function reads no
    sector. *)
Definition Deallocate (heap : nat → nat → Z) (h : FileHeader)
  (freeMap : Bitmap.t) : outcome Bitmap.t :=
  dealloc_lists (Z.to_nat (numLists h)) O heap h freeMap.

(** [FileHeader::ByteToSector] *)
Definition ByteToSector (h : FileHeader) (disk : Disk) (offset : Z)
  : outcome Z :=
  let sectorIdx := Z.quot offset (SectorSize K) in
  let listIdx := Z.quot sectorIdx (SectorNumPerList K) in
  let idxInList := Z.rem sectorIdx (SectorNumPerList K) in
  match index (dataSectorLists h) listIdx with
  | None => Fault
  | Some s =>
      buf ← ReadSector K disk s;
      if (0 <=? idxInList) && (idxInList <? SectorNumPerList K)
      then Ok (nth (Z.to_nat idxInList) buf 0)
      else Fault
  end.

(** [FileHeader::FileLength] *)
Definition FileLength (h : FileHeader) : Z := numBytes h.

(** *** Notions the statements use *)

(** The number of data sectors [Allocate] takes for list [i]. *)
Definition list_count (i : nat) : nat :=
  Z.to_nat (lastSectorNum_alloc (Z.of_nat i * SectorNumPerList K)
            - Z.of_nat i * SectorNumPerList K).

(** The headers [h] and [h'] agree on their size fields. *)
Definition same_sizes (h h' : FileHeader) : Prop :=
  numBytes h' = numBytes h ∧ numSectors h' = numSectors h ∧
  numLists h' = numLists h ∧
  length (dataSectorLists h') = length (dataSectorLists h).

End WithConstants.

End FileHdr.

(** ** Directories ([directory.cc]) *)

Module Dir.

Definition NUL : ascii := Ascii.zero.

(** A [char *] argument: the bytes up to the first NUL. *)
Fixpoint cstring (s : list ascii) : list ascii :=
  match s with
  | [] => []
  | c :: s' => if Ascii.eqb c NUL then [] else c :: cstring s'
  end.

(** [DirectoryEntry]; [name] is the array [char name[FileNameMaxLen + 1]]. *)
Record DirectoryEntry : Type := {
  inUse : bool;
  sector : Z;
  name : list ascii;
  type : ascii
}.

(** A directory object: its [table]; [tableSize] is the length. *)
Abbreviation Directory := (list DirectoryEntry).

(** Modelled from the spec: the open-file layer ([filesys/openfile.cc] is
    not among the sources). [files s] is the content, as directory entries,
    of the file whose header is in sector [s]; opening a file reads its
    header sector. *)
Definition Files := Z → list DirectoryEntry.

(** [strncmp(s1, s2, n) == 0]. Past the end of a list the bytes are NUL: the
    terminator of a string, the zeroed rest of a buffer. *)
Fixpoint strncmp0 (n : nat) (s1 s2 : list ascii) : bool :=
  match n with
  | O => true
  | S n' =>
      let c1 := hd NUL s1 in
      let c2 := hd NUL s2 in
      if Ascii.eqb c1 c2
      then (if Ascii.eqb c1 NUL then true else strncmp0 n' (tail s1) (tail s2))
      else false
  end.

(** [strncpy(dst, src, n)] for a NUL-free [src]: [n] bytes are written, the
    bytes of [src] and then NULs; the rest of [dst] is kept. *)
Definition strncpy (n : nat) (dst src : list ascii) : list ascii :=
  take n (src ++ replicate n NUL) ++ drop n dst.

(** [table[i].sector] for an index [FindIndex] returned. *)
Definition sector_at (table : Directory) (i : Z) : Z :=
  match table !! Z.to_nat i with
  | Some e => sector e
  | None => -1
  end.

(** The loop [for (i = len - 1; i >= 0; i--)] of [Add] and [Remove]: the
    index of the last '/', if there is one. *)
Fixpoint last_slash (name : list ascii) : option nat :=
  match name with
  | [] => None
  | c :: name' =>
      match last_slash name' with
      | Some k => Some (S k)
      | None => if Ascii.eqb c "/" then Some O else None
      end
  end.

(** The two copying loops of [Add] and [Remove]: into [File], a buffer of 9
    bytes, and into [Path], a buffer of 256 bytes. Without a '/' in the name
    [slash] is read uninitialised. The result tells whether [Path] still
    ends in a NUL. *)
Definition split_path (name : list ascii)
  : outcome (list ascii * list ascii * bool) :=
  match last_slash name with
  | None => Fault
  | Some slash =>
      let File := drop (S slash) name in
      let Path := take slash name in
      if (9 <? length File)%nat then Fault
      else if (256 <? slash)%nat then Fault
      else Ok (Path, File, (slash <? 256)%nat)
  end.

(** The loop over the slots [0 .. n) of [table], from [i] on: the first
    slot not in use. *)
Fixpoint first_free (n i : nat) (table : Directory) : outcome (option nat) :=
  match n with
  | O => Ok None
  | S n' =>
      match table !! i with
      | None => Fault
      | Some e => if inUse e then first_free n' (S i) table else Ok (Some i)
      end
  end.

(** [table[id].inUse = false] *)
Definition clear_slot (table : Directory) (id : Z) : Directory :=
  match table !! Z.to_nat id with
  | None => table
  | Some e =>
      <[Z.to_nat id := {| inUse := false; sector := sector e;
                          name := name e; type := type e |}]> table
  end.

(** [Directory::WriteBack]: the table is written at offset 0 of the file. *)
Definition WriteBack (table : Directory) (files : Files) (sector : Z) : Files :=
  λ s, if s =? sector then table ++ drop (length table) (files s) else files s.

Section WithConstants.

Variable K : Constants.

(** The entry [memset] leaves. *)
Definition zero_entry : DirectoryEntry :=
  {| inUse := false; sector := 0;
     name := replicate (S (FileNameMaxLen K)) NUL; type := NUL |}.

(** [Directory::Directory] *)
Definition new (size : nat) : Directory := replicate size zero_entry.

Definition OpenFile (sector : Z) : outcome unit :=
  ASSERT (sector_in_range K sector).

(** [new Directory(NumDirEntries)] followed by [FetchFrom]: the entries the
    file holds, over the zeroed table. *)
Definition FetchFrom (files : Files) (sector : Z) : Directory :=
  take (NumDirEntries K) (files sector ++ replicate (NumDirEntries K) zero_entry).

(** [Directory::FindIndex]: the loop from index [i] on. *)
Fixpoint FindIndex_from (i : nat) (table : Directory) (query : list ascii) : Z :=
  match table with
  | [] => -1
  | e :: table' =>
      if inUse e && strncmp0 (FileNameMaxLen K) (name e) query
      then Z.of_nat i
      else FindIndex_from (S i) table' query
  end.

Definition FindIndex (table : Directory) (query : list ascii) : Z :=
  FindIndex_from O table query.

(** What [Find] returns for the index [FindIndex] gave. *)
Definition lookup_result (table : Directory) (query : list ascii) : Z :=
  let i := FindIndex table query in
  if i =? -1 then -1 else sector_at table i.

(** [Directory::Find] after its [name++]: the scanning loop and the
    recursive call, one byte of the path per step. [localName] holds the
    bytes collected so far; [localID], a [char], has left the array once 128
    bytes are in. [terminated] tells whether the buffer scanned holds its
    terminating NUL. *)
Fixpoint Find_scan (files : Files) (terminated : bool) (table : Directory)
  (localName : list ascii) (path : list ascii) : outcome Z :=
  match path with
  | [] => if terminated then Ok (lookup_result table localName) else Fault
  | c :: path' =>
      if Ascii.eqb c "/" then
        let i := FindIndex table localName in
        if i =? -1 then Ok (-1)
        else
          _ ← OpenFile (sector_at table i);
          Find_scan files terminated (FetchFrom files (sector_at table i)) [] path'
      else if (128 <=? length localName)%nat then Fault
      else Find_scan files terminated table (localName ++ [c]) path'
  end.

(** [Find] on a buffer; the empty string makes [name++] step past the
    terminator. *)
Definition Find_buffer (files : Files) (terminated : bool) (table : Directory)
  (buffer : list ascii) : outcome Z :=
  match buffer with
  | [] => Fault
  | _ :: path => Find_scan files terminated table [] path
  end.

(** [Directory::Find] *)
Definition Find (files : Files) (table : Directory) (name : list ascii)
  : outcome Z :=
  Find_buffer files true table (cstring name).

(** The entry the four assignments of [Add] leave in a slot that held [e]. *)
Definition new_entry (e : DirectoryEntry) (File : list ascii) (newSector : Z)
  (inType : ascii) : DirectoryEntry :=
  {| inUse := true; sector := newSector;
     name := strncpy (FileNameMaxLen K) (name e) File; type := inType |}.

Definition fill_slot (table : Directory) (i : nat) (File : list ascii)
  (newSector : Z) (inType : ascii) : Directory :=
  match table !! i with
  | None => table
  | Some e => <[i := new_entry e File newSector inType]> table
  end.

(** [Directory::Add]: the result, the table of this directory and the
    files after the call. *)
Definition Add (files : Files) (table : Directory) (name : list ascii)
  (newSector : Z) (inType : ascii) : outcome (bool * Directory * Files) :=
  found ← Find files table name;
  if negb (found =? -1) then Ok (false, table, files)
  else
    '(Path, File, terminated) ← split_path (cstring name);
    match Path with
    | _ :: _ =>
        sector ← Find_buffer files terminated table Path;
        _ ← OpenFile sector;
        let nextDir := FetchFrom files sector in
        slot ← first_free (length table) O nextDir;
        match slot with
        | Some i =>
            Ok (true, table,
                WriteBack (fill_slot nextDir i File newSector inType) files sector)
        | None => Ok (false, table, files)
        end
    | [] =>
        slot ← first_free (length table) O table;
        match slot with
        | Some i => Ok (true, fill_slot table i File newSector inType, files)
        | None => Ok (false, table, files)
        end
    end.

(** [Directory::Remove] *)
Definition Remove (files : Files) (table : Directory) (name : list ascii)
  : outcome (bool * Directory * Files) :=
  found ← Find files table name;
  if found =? -1 then Ok (false, table, files)
  else
    '(Path, File, terminated) ← split_path (cstring name);
    match Path with
    | _ :: _ =>
        sector ← Find_buffer files terminated table Path;
        _ ← OpenFile sector;
        let nextDir := FetchFrom files sector in
        let id := FindIndex nextDir File in
        if id =? -1 then Ok (false, table, files)
        else Ok (true, table, WriteBack (clear_slot nextDir id) files sector)
    | [] =>
        let id := FindIndex table (cstring name) in
        if id =? -1 then Ok (false, table, files)
        else Ok (true, clear_slot table id, files)
    end.

(** *** Notions the statements use *)

(** The path of a leaf of this directory. *)
Definition path_of (leaf : list ascii) : list ascii := "/"%char :: leaf.

(** A run of [Add]s of leaves of this directory, with their results. *)
Fixpoint Add_each (files : Files) (table : Directory)
  (items : list (list ascii * Z * ascii))
  : outcome (list bool * Directory * Files) :=
  match items with
  | [] => Ok ([], table, files)
  | (leaf, newSector, inType) :: items' =>
      '(b, table1, files1) ← Add files table (path_of leaf) newSector inType;
      '(bs, table2, files2) ← Add_each files1 table1 items';
      Ok (b :: bs, table2, files2)
  end.

Definition leaves (items : list (list ascii * Z * ascii)) : list (list ascii) :=
  (λ it, it.1.1) <$> items.

(** A short name: no NUL, no '/', at most [FileNameMaxLen] bytes. *)
Definition short_name (l : list ascii) : Prop :=
  (NUL ∉ l) ∧ ("/"%char ∉ l) ∧ (length l <= FileNameMaxLen K)%nat.

(** The in-use entry [e] carries the short name [l], NUL-padded. *)
Definition holds (l : list ascii) (e : DirectoryEntry) : Prop :=
  inUse e = true ∧
  ∃ rest, name e = l ++ rest ∧
          ((length l < FileNameMaxLen K)%nat → hd NUL rest = NUL).

(** [Directory::List]: the lines it prints, as index, name and type. The
    [%s] of [printf] prints the bytes of [name] up to the first NUL and runs
    past the array when there is none. *)
Definition print_name (name : list ascii) : outcome (list ascii) :=
  if existsb (Ascii.eqb NUL) name then Ok (cstring name) else Fault.

Fixpoint List_from (i : nat) (table : Directory)
  : outcome (list (Z * list ascii * ascii)) :=
  match table with
  | [] => Ok []
  | e :: table' =>
      if inUse e then
        s ← print_name (name e);
        rest ← List_from (S i) table';
        Ok ((Z.of_nat i, s, type e) :: rest)
      else List_from (S i) table'
  end.

Definition List (table : Directory) : outcome (list (Z * list ascii * ascii)) :=
  List_from O table.

(** What [strncmp] under the bound [FileNameMaxLen] sees of a name. *)
Definition name_key (s : list ascii) : list ascii :=
  take (FileNameMaxLen K) (cstring s).

(** The test of the loop of [FindIndex]. *)
Definition matches (query : list ascii) (e : DirectoryEntry) : bool :=
  inUse e && strncmp0 (FileNameMaxLen K) (name e) query.

(** No entry in use has the sector -1, the value [Find] returns for "not
    found". *)
Definition valid_sectors (table : Directory) : Prop :=
  Forall (λ e, inUse e = true → sector e ≠ -1) table.

(** The names in use differ within their first [FileNameMaxLen] bytes. *)
Definition distinct_names (table : Directory) : Prop :=
  ∀ i j ei ej, i ≠ j → table !! i = Some ei → table !! j = Some ej →
    inUse ei = true → inUse ej = true →
    name_key (name ei) ≠ name_key (name ej).

Definition in_use_keys (table : Directory) : list (list ascii) :=
  omap (λ e, if inUse e then Some (name_key (name e)) else None) table.

(** A path component that [Find] can collect: no NUL, no '/', at most 128
    bytes. *)
Definition component (l : list ascii) : Prop :=
  (NUL ∉ l) ∧ ("/"%char ∉ l) ∧ (length l <= 128)%nat.

(** The path of the leaf [x] of the subdirectory [d] of this directory. *)
Definition nested_path (d x : list ascii) : list ascii :=
  "/"%char :: d ++ "/"%char :: x.




(** The lines [List] prints for the items of a run of [Add]s, from index
    [i] on. *)
Fixpoint lines_from (i : nat) (items : list (list ascii * Z * ascii))
  : list (Z * list ascii * ascii) :=
  match items with
  | [] => []
  | (leaf, _, inType) :: items' =>
      (Z.of_nat i, leaf, inType) :: lines_from (S i) items'
  end.

End WithConstants.

(** The name stored in [e] does not begin with '/'. *)
Definition plain_name (e : DirectoryEntry) : Prop :=
  hd NUL (name e) ≠ "/"%char.

(** The slot [i] is the lowest free one of [table]; [e] is its content. *)
Definition lowest_free (table : Directory) (i : nat) (e : DirectoryEntry)
  : Prop :=
  table !! i = Some e ∧ inUse e = false ∧
  ∀ j e', (j < i)%nat → table !! j = Some e' → inUse e' = true.

End Dir.

(** ** Concrete states *)

Definition chars (s : string) : list ascii := list_ascii_of_string s.

(** A disk of zeroed sectors. *)
Definition disk0 : Disk := λ _, replicate 32 0.

(** The free map of a disk on which only sectors 0 and 1 are taken. *)
Definition fresh_map : Bitmap.t := [true; true] ++ replicate 1022 false.

Definition last_bit_map : Bitmap.t := replicate 1023 true ++ [false].

(** A well-formed header of a file of one sector: the index sector is 2 and
    holds the number of the data sector, 3; [used_map] has the bits of
    sectors 0 to 3 set. *)
Definition one_sector_header : FileHdr.FileHeader :=
  {| FileHdr.numBytes := 128; FileHdr.numSectors := 1; FileHdr.numLists := 1;
     FileHdr.dataSectorLists := 2 :: replicate 28 (-1) |}.

Definition one_sector_disk : Disk :=
  λ s, if s =? 2 then 3 :: replicate 31 0 else replicate 32 0.

Definition used_map : Bitmap.t := replicate 4 true ++ replicate 1020 false.

(** No file holds any entry: every directory loaded is empty. *)
Definition empty_files : Dir.Files := λ _, [].

(** The root directory holding the subdirectory "d", whose header is in
    sector 50. *)
Definition root_d : Dir.Directory :=
  Dir.fill_slot nachos (Dir.new nachos 10) O (chars "d") 50 "D".

(** The files once "x", with its header in sector 77, is added to "d". *)
Definition files_dx : Dir.Files :=
  Dir.WriteBack
    (Dir.fill_slot nachos (Dir.FetchFrom nachos empty_files 50) O (chars "x")
       77 "F")
    empty_files 50.



(** * Properties *)

(** ** Outcomes *)

Lemma bind_Ok {A B} (m : outcome A) (f : A → outcome B) (b : B) :
  m ≫= f = Ok b → ∃ a, m = Ok a ∧ f a = Ok b.
Proof. destruct m; simpl; intros H; try discriminate. eauto. Qed.

Lemma ASSERT_Ok (c : bool) : ASSERT c = Ok tt → c = true.
Proof. destruct c; simpl; [done | discriminate]. Qed.

(** ** Rounding up *)

Lemma divRoundUp_ceiling n s :
  0 <= n → 0 < s → divRoundUp n s = (n + s - 1) / s.
Proof.
  intros Hn Hs. unfold divRoundUp.
  rewrite Z.quot_div_nonneg, Z.rem_mod_nonneg by lia.
  pose proof (Z.mod_pos_bound n s Hs) as Hm.
  pose proof (Z.div_mod n s ltac:(lia)) as Hd.
  destruct (0 <? n mod s) eqn:E.
  - apply Z.ltb_lt in E. apply Z.div_unique with (r := n mod s - 1); lia.
  - apply Z.ltb_ge in E. apply Z.div_unique with (r := s - 1); lia.
Qed.

Lemma divRoundUp_pred n s :
  0 < n → 0 < s → divRoundUp n s = (n - 1) / s + 1.
Proof.
  intros Hn Hs. rewrite divRoundUp_ceiling by lia.
  replace (n + s - 1) with ((n - 1) + 1 * s) by lia.
  by rewrite Z.div_add by lia.
Qed.

(** ** The free map *)

Lemma find_clear_spec (b : Bitmap.t) i :
  Bitmap.find_clear b = Some i →
  b !! i = Some false ∧ ∀ j, (j < i)%nat → b !! j = Some true.
Proof.
  revert i. induction b as [|x b IH]; intros i; simpl; [discriminate|].
  destruct x.
  - destruct (Bitmap.find_clear b) as [k|] eqn:E; simpl; [|discriminate].
    intros [= <-]. destruct (IH k eq_refl) as [H1 H2]. split; [done|].
    intros [|j] Hj; simpl; [done|]. apply H2. lia.
  - intros [= <-]. split; [done|]. intros j Hj. lia.
Qed.

Lemma bit_lookup (b : Bitmap.t) (s : Z) :
  Bitmap.bit b s = true ↔ 0 <= s ∧ b !! Z.to_nat s = Some true.
Proof.
  unfold Bitmap.bit, Bitmap.in_range. rewrite andb_true_iff, andb_true_iff.
  rewrite Z.leb_le, Z.ltb_lt. split.
  - intros [[H0 H1] H2]. split; [done|].
    destruct (b !! Z.to_nat s) as [x|] eqn:E.
    + erewrite nth_lookup_Some in H2 by eauto. by subst.
    + apply lookup_ge_None in E. lia.
  - intros [H0 H1]. pose proof (lookup_lt_Some _ _ _ H1).
    split; [lia|]. by erewrite nth_lookup_Some by eauto.
Qed.

(** [FindAndSet] hands out a sector that was free and keeps every set bit. *)
Lemma FindAndSet_spec (b b' : Bitmap.t) s :
  Bitmap.FindAndSet b = (s, b') → 0 <= s →
  Bitmap.bit b s = false ∧ Bitmap.bit b' s = true ∧
  (∀ x, Bitmap.bit b x = true → Bitmap.bit b' x = true).
Proof.
  unfold Bitmap.FindAndSet. destruct (Bitmap.find_clear b) as [i|] eqn:E.
  2:{ intros [= <- <-]. lia. }
  intros [= <- <-] _. destruct (find_clear_spec _ _ E) as [Hi _].
  pose proof (lookup_lt_Some _ _ _ Hi) as Hlt.
  split; [|split].
  - destruct (Bitmap.bit b (Z.of_nat i)) eqn:Hb; [|done].
    apply bit_lookup in Hb as [_ Hb]. rewrite Nat2Z.id in Hb. congruence.
  - apply bit_lookup. split; [lia|]. rewrite Nat2Z.id.
    by apply list_lookup_insert_eq.
  - intros x [Hx Hl]%bit_lookup. apply bit_lookup. split; [done|].
    destruct (decide (i = Z.to_nat x)) as [->|Hne].
    + by apply list_lookup_insert_eq.
    + by rewrite list_lookup_insert_ne.
Qed.

Lemma bit_clear_ne (b : Bitmap.t) (which x : Z) :
  0 <= which → x ≠ which →
  Bitmap.bit (<[Z.to_nat which := false]> b) x = Bitmap.bit b x.
Proof.
  intros Hw Hne. unfold Bitmap.bit, Bitmap.in_range. rewrite length_insert.
  destruct (0 <=? x) eqn:E; [|done]. apply Z.leb_le in E.
  f_equal. rewrite !nth_lookup, list_lookup_insert_ne; [done | lia].
Qed.

(** ** File headers *)

Section FileHdrProperties.

Import FileHdr.

Variable K : Constants.

Lemma fill_buffer_keeps n : ∀ j buf (fm : Bitmap.t) buf' (fm' : Bitmap.t),
  fill_buffer n j buf fm = Ok (buf', fm') →
  ∀ x, Bitmap.bit fm x = true → Bitmap.bit fm' x = true.
Proof.
  induction n as [|n IH]; intros j buf fm buf' fm'; simpl.
  - by intros [= <- <-].
  - destruct (Bitmap.FindAndSet fm) as [s fm1] eqn:E.
    destruct (length buf <=? j)%nat; [discriminate|].
    intros H. apply bind_Ok in H as ([] & Ha%ASSERT_Ok & H).
    apply Z.leb_le in Ha.
    destruct (FindAndSet_spec _ _ _ E Ha) as (_ & _ & Hk).
    intros x Hx. eapply IH; eauto.
Qed.

Lemma WriteSector_Ok (disk disk1 : Disk) s buf :
  WriteSector K disk s buf = Ok disk1 →
  sector_in_range K s = true ∧ disk1 = (λ x, if x =? s then buf else disk x).
Proof.
  unfold WriteSector. destruct (sector_in_range K s); simpl; [|discriminate].
  by intros [= <-].
Qed.

(** One turn of the outer loop of [Allocate] that ends well. *)
Lemma alloc_lists_step n i h (fm : Bitmap.t) disk r :
  alloc_lists K (S n) i h fm disk = Ok r →
  ∃ s (fm1 : Bitmap.t) buf (fm2 : Bitmap.t) disk1,
    Bitmap.FindAndSet fm = (s, fm1) ∧
    (i < length (dataSectorLists h))%nat ∧ 0 <= s ∧
    fill_buffer
      (Z.to_nat (lastSectorNum_alloc K (Z.of_nat i * SectorNumPerList K)
                 - Z.of_nat i * SectorNumPerList K))
      O (replicate (Z.to_nat (SectorNumPerList K)) 0) fm1 = Ok (buf, fm2) ∧
    WriteSector K disk s buf = Ok disk1 ∧
    alloc_lists K n (S i) (set_list h i s) fm2 disk1 = Ok r.
Proof.
  simpl. destruct (Bitmap.FindAndSet fm) as [s fm1].
  destruct (length (dataSectorLists h) <=? i)%nat eqn:E; [discriminate|].
  apply Nat.leb_gt in E.
  intros H. apply bind_Ok in H as ([] & Ha%ASSERT_Ok & H).
  apply Z.leb_le in Ha.
  apply bind_Ok in H as ([buf fm2] & Hf & H).
  apply bind_Ok in H as (disk1 & Hw & H).
  exists s, fm1, buf, fm2, disk1. done.
Qed.


(** The translation of an offset inside a well-formed header. *)
Lemma ByteToSector_index (h : FileHeader) (disk : Disk) (offset : Z) :
  0 < SectorSize K → 0 < SectorNumPerList K →
  numSectors h = divRoundUp (numBytes h) (SectorSize K) →
  numLists h = divRoundUp (numSectors h) (SectorNumPerList K) →
  numLists h <= Z.of_nat (length (dataSectorLists h)) →
  (∀ (i : nat) s, Z.of_nat i < numLists h →
     dataSectorLists h !! i = Some s → sector_in_range K s = true) →
  (∀ s, length (disk s) = Z.to_nat (SectorNumPerList K)) →
  0 < numBytes h → 0 <= offset < numBytes h →
  ∃ s v,
    dataSectorLists h !! Z.to_nat (offset / SectorSize K / SectorNumPerList K)
      = Some s ∧
    disk s !! Z.to_nat ((offset / SectorSize K) mod SectorNumPerList K)
      = Some v ∧
    ByteToSector K h disk offset = Ok v.
Proof.
  intros HS HL HnS HnL Hlen Hrange Hdisk Hpos Hoff.
  assert (Hk : 0 <= offset / SectorSize K < numSectors h).
  { rewrite HnS, divRoundUp_pred by lia. split; [apply Z.div_pos; lia|].
    assert (offset / SectorSize K <= (numBytes h - 1) / SectorSize K)
      by (apply Z.div_le_mono; lia).
    lia. }
  unfold ByteToSector.
  rewrite (Z.quot_div_nonneg offset) by lia.
  remember (offset / SectorSize K) as k eqn:Ek. clear Ek.
  assert (Hi : 0 <= k / SectorNumPerList K < numLists h).
  { rewrite HnL, divRoundUp_pred by lia. split; [apply Z.div_pos; lia|].
    assert (k / SectorNumPerList K <= (numSectors h - 1) / SectorNumPerList K)
      by (apply Z.div_le_mono; lia).
    lia. }
  assert (Hj : 0 <= k mod SectorNumPerList K < SectorNumPerList K)
    by (apply Z.mod_pos_bound; lia).
  rewrite Z.quot_div_nonneg, Z.rem_mod_nonneg by lia.
  remember (k / SectorNumPerList K) as i eqn:Ei.
  remember (k mod SectorNumPerList K) as j eqn:Ej. clear Ei Ej.
  destruct (lookup_lt_is_Some_2 (dataSectorLists h) (Z.to_nat i)) as [s Hs]; [lia|].
  destruct (lookup_lt_is_Some_2 (disk s) (Z.to_nat j)) as [v Hv].
  { rewrite Hdisk. lia. }
  exists s, v. split; [done|]. split; [done|].
  unfold index.
  replace (0 <=? i) with true by (symmetry; apply Z.leb_le; lia).
  rewrite Hs. unfold ReadSector.
  rewrite (Hrange (Z.to_nat i) s) by (done || lia). simpl.
  replace (0 <=? j) with true by (symmetry; apply Z.leb_le; lia).
  replace (j <? SectorNumPerList K) with true by (symmetry; apply Z.ltb_lt; lia).
  simpl. f_equal. by apply nth_lookup_Some.
Qed.

(** A file of [S * (L + 1)] bytes gets two index sectors, and the offsets 0
    and [S * L] go through one each. *)
Lemma ByteToSector_two_lists h0 (B0 : Bitmap.t) (d0 : Disk) h'
  (B' : Bitmap.t) (disk' : Disk) :
  0 < SectorSize K → 0 < SectorNumPerList K →
  Allocate K h0 B0 d0 (SectorSize K * (SectorNumPerList K + 1))
    = Ok (true, h', B', disk') →
  numSectors h' = SectorNumPerList K + 1 ∧ numLists h' = 2 ∧
  ∃ s0 s1,
    dataSectorLists h' !! O = Some s0 ∧ dataSectorLists h' !! 1%nat = Some s1 ∧
    s0 ≠ s1 ∧
    ByteToSector K h' disk' 0 = Ok (nth O (disk' s0) 0) ∧
    ByteToSector K h' disk' (SectorSize K * SectorNumPerList K)
      = Ok (nth O (disk' s1) 0).
Proof.
  intros HS HL. unfold Allocate, header_of.
  assert (E1 : divRoundUp (SectorSize K * (SectorNumPerList K + 1)) (SectorSize K)
               = SectorNumPerList K + 1).
  { rewrite divRoundUp_ceiling by nia.
    replace (SectorSize K * (SectorNumPerList K + 1) + SectorSize K - 1)
      with ((SectorSize K - 1) + (SectorNumPerList K + 1) * SectorSize K) by lia.
    rewrite Z.div_add, Z.div_small by lia. lia. }
  assert (E2 : divRoundUp (SectorNumPerList K + 1) (SectorNumPerList K) = 2).
  { rewrite divRoundUp_ceiling by lia.
    replace (SectorNumPerList K + 1 + SectorNumPerList K - 1)
      with (0 + 2 * SectorNumPerList K) by lia.
    rewrite Z.div_add by lia. done. }
  rewrite E1, E2. cbn [numSectors numLists].
  destruct (Bitmap.NumClear B0 <? SectorNumPerList K + 1); [discriminate|].
  intros H. apply bind_Ok in H as ([[h1 B1] d1] & H & [= -> -> ->]).
  change (Z.to_nat 2) with 2%nat in H.
  apply alloc_lists_step in H
    as (s0 & fm1 & buf0 & fm2 & disk1 & Hf0 & Hl0 & Hs0 & Hb0 & Hw0 & H).
  apply alloc_lists_step in H
    as (s1 & fm3 & buf1 & fm4 & disk2 & Hf1 & Hl1 & Hs1 & Hb1 & Hw1 & H).
  simpl in H. injection H as <- <- <-.
  simpl in Hl0, Hl1. rewrite length_insert in Hl1.
  apply WriteSector_Ok in Hw0 as [Hr0 ->]. apply WriteSector_Ok in Hw1 as [Hr1 ->].
  destruct (FindAndSet_spec _ _ _ Hf0 Hs0) as (_ & Hset0 & _).
  pose proof (fill_buffer_keeps _ _ _ _ _ _ Hb0 _ Hset0) as Hset0'.
  destruct (FindAndSet_spec _ _ _ Hf1 Hs1) as (Hclr1 & _ & _).
  assert (Hne : s0 ≠ s1) by congruence.
  assert (D0 : <[1%nat:=s1]> (<[O:=s0]> (dataSectorLists h0)) !! O = Some s0).
  { rewrite list_lookup_insert_ne by done. by apply list_lookup_insert_eq. }
  assert (D1 : <[1%nat:=s1]> (<[O:=s0]> (dataSectorLists h0)) !! 1%nat = Some s1).
  { apply list_lookup_insert_eq. by rewrite length_insert. }
  split; [done|]. split; [done|].
  exists s0, s1. simpl. split; [done|]. split; [done|]. split; [done|].
  assert (HLb : (0 <? SectorNumPerList K) = true) by (apply Z.ltb_lt; lia).
  unfold ByteToSector, index, ReadSector. simpl dataSectorLists. split.
  - rewrite !Z.quot_0_l, Z.rem_0_l by lia. simpl. change (Z.to_nat 0) with O.
    rewrite D0, Hr0. simpl. by rewrite HLb.
  - replace (SectorSize K * SectorNumPerList K)
      with (SectorNumPerList K * SectorSize K) by lia.
    rewrite Z.quot_mul by lia. rewrite Z.quot_same, Z.rem_same by lia.
    simpl. change (Z.to_nat 0) with O. change (Z.to_nat 1) with 1%nat.
    rewrite D1, Hr1. simpl. by rewrite HLb.
Qed.

(** C7. For a header with [numBytes > 0] whose size fields agree (I4), whose
    lists fit in [dataSectorLists] and lie on the disk, and for every offset
    below [numBytes], [ByteToSector] returns slot [j] of the index sector
    stored at [dataSectorLists[i]], where [k = offset / S], [i = k / L] and
    [j = k mod L]. In particular a file of [S * (L + 1)] bytes that
    [Allocate] laid out has [L + 1] sectors in two lists, and the offsets 0
    and [S * L] are translated through two different index sectors. *)
Theorem ByteToSector_translates :
  0 < SectorSize K → 0 < SectorNumPerList K →
  (∀ (h : FileHeader) (disk : Disk) (offset : Z),
     numSectors h = divRoundUp (numBytes h) (SectorSize K) →
     numLists h = divRoundUp (numSectors h) (SectorNumPerList K) →
     numLists h <= Z.of_nat (length (dataSectorLists h)) →
     (∀ (i : nat) s, Z.of_nat i < numLists h →
        dataSectorLists h !! i = Some s → sector_in_range K s = true) →
     (∀ s, length (disk s) = Z.to_nat (SectorNumPerList K)) →
     0 < numBytes h → 0 <= offset < numBytes h →
     ∃ s v,
       dataSectorLists h !! Z.to_nat (offset / SectorSize K / SectorNumPerList K)
         = Some s ∧
       disk s !! Z.to_nat ((offset / SectorSize K) mod SectorNumPerList K)
         = Some v ∧
       ByteToSector K h disk offset = Ok v) ∧
  (∀ h0 (B0 : Bitmap.t) (d0 : Disk) h' (B' : Bitmap.t) (disk' : Disk),
     Allocate K h0 B0 d0 (SectorSize K * (SectorNumPerList K + 1))
       = Ok (true, h', B', disk') →
     numSectors h' = SectorNumPerList K + 1 ∧ numLists h' = 2 ∧
     ∃ s0 s1,
       dataSectorLists h' !! O = Some s0 ∧
       dataSectorLists h' !! 1%nat = Some s1 ∧
       s0 ≠ s1 ∧
       ByteToSector K h' disk' 0 = Ok (nth O (disk' s0) 0) ∧
       ByteToSector K h' disk' (SectorSize K * SectorNumPerList K)
         = Ok (nth O (disk' s1) 0)).
Proof.
  intros HS HL. split.
  - intros h disk offset. by apply ByteToSector_index.
  - intros h0 B0 d0 h' B' disk'. by apply ByteToSector_two_lists.
Qed.

(** [Deallocate] on a header of one sector clears exactly one bit: the one
    the uninitialised buffer names. *)
Lemma Deallocate_one_sector heap h (fm fm' : Bitmap.t) :
  numLists h = 1 → numSectors h = 1 → 1 < SectorNumPerList K →
  Deallocate K heap h fm = Ok fm' →
  ∃ which, 0 <= which ∧ Bitmap.bit fm which = true ∧
           fm' = <[Z.to_nat which := false]> fm.
Proof.
  intros HnL HnS HL. unfold Deallocate. rewrite HnL.
  change (Z.to_nat 1) with 1%nat. cbn [dealloc_lists].
  unfold lastSectorNum. rewrite HnS.
  replace (1 <? Z.of_nat 0 * SectorNumPerList K + SectorNumPerList K) with true
    by (symmetry; apply Z.ltb_lt; lia).
  change (Z.to_nat 1) with 1%nat. cbn [clear_loop].
  replace (Z.to_nat (SectorNumPerList K) <=? 0)%nat with false
    by (symmetry; apply Nat.leb_gt; lia).
  intros H. apply bind_Ok in H as (fm1 & H & [= <-]).
  apply bind_Ok in H as (b & Ht & H).
  apply bind_Ok in H as ([] & Ha%ASSERT_Ok & H). subst b.
  apply bind_Ok in H as (fm2 & Hc & [= <-]).
  unfold Bitmap.Test in Ht. unfold Bitmap.Clear in Hc.
  destruct (Bitmap.in_range fm (heap O O)) eqn:Hr; simpl in Ht, Hc; [|discriminate].
  injection Ht as Ht. injection Hc as <-.
  exists (heap O O). unfold Bitmap.bit. rewrite Hr, Ht.
  unfold Bitmap.in_range in Hr. apply andb_true_iff in Hr as [Hr%Z.leb_le _]. done.
Qed.

(** *** Counting the sectors [Allocate] takes *)

Lemma find_clear_count (b : Bitmap.t) i :
  Bitmap.find_clear b = Some i →
  Bitmap.count_clear b = S (Bitmap.count_clear (<[i := true]> b)).
Proof.
  revert i. induction b as [|x b IH]; intros i; simpl; [discriminate|].
  destruct x.
  - destruct (Bitmap.find_clear b) as [k|] eqn:E; simpl; [|discriminate].
    intros [= <-]. simpl. by apply IH.
  - by intros [= <-].
Qed.

Lemma FindAndSet_count (b b' : Bitmap.t) s :
  Bitmap.FindAndSet b = (s, b') → 0 <= s →
  Bitmap.NumClear b = Bitmap.NumClear b' + 1.
Proof.
  unfold Bitmap.FindAndSet, Bitmap.NumClear.
  destruct (Bitmap.find_clear b) as [i|] eqn:E.
  - intros [= <- <-] _. rewrite (find_clear_count _ _ E). lia.
  - intros [= <- <-]. lia.
Qed.

Lemma fill_buffer_count n : ∀ j buf (fm : Bitmap.t) buf' (fm' : Bitmap.t),
  fill_buffer n j buf fm = Ok (buf', fm') →
  Bitmap.NumClear fm = Bitmap.NumClear fm' + Z.of_nat n.
Proof.
  induction n as [|n IH]; intros j buf fm buf' fm'; cbn [fill_buffer].
  - intros [= <- <-]. lia.
  - destruct (Bitmap.FindAndSet fm) as [s fm1] eqn:E.
    destruct (length buf <=? j)%nat; [discriminate|].
    intros H. apply bind_Ok in H as ([] & Ha%ASSERT_Ok & H).
    apply Z.leb_le in Ha. apply IH in H.
    rewrite (FindAndSet_count _ _ _ E Ha). lia.
Qed.

(** In every build whose disk holds at least one full list, a file of one
    sector costs [1 + L] sectors: the index sector and a whole list. *)
Lemma Allocate_one_sector_takes_list h (B : Bitmap.t) disk f h'
  (B' : Bitmap.t) disk' :
  0 < SectorSize K → 1 < SectorNumPerList K →
  SectorNumPerList K <= NumSectors K → 0 < f <= SectorSize K →
  Allocate K h B disk f = Ok (true, h', B', disk') →
  numSectors h' = 1 ∧ numLists h' = 1 ∧
  Bitmap.NumClear B = Bitmap.NumClear B' + 1 + SectorNumPerList K.
Proof.
  intros HS HL HN Hf. unfold Allocate, header_of.
  assert (E1 : divRoundUp f (SectorSize K) = 1).
  { rewrite divRoundUp_pred by lia. rewrite Z.div_small by lia. done. }
  assert (E2 : divRoundUp 1 (SectorNumPerList K) = 1).
  { rewrite divRoundUp_pred by lia. rewrite Z.div_small by lia. done. }
  rewrite E1, E2. cbn [numSectors numLists].
  destruct (Bitmap.NumClear B <? 1); [discriminate|].
  intros H. apply bind_Ok in H as ([[h1 B1] d1] & H & [= -> -> ->]).
  change (Z.to_nat 1) with 1%nat in H.
  apply alloc_lists_step in H
    as (s0 & fm1 & buf0 & fm2 & disk1 & Hf0 & Hl0 & Hs0 & Hb0 & Hw0 & H).
  simpl in H. injection H as <- <- <-.
  split; [done|]. split; [done|].
  apply fill_buffer_count in Hb0. apply FindAndSet_count in Hf0; [|done].
  unfold lastSectorNum_alloc in Hb0.
  replace (NumSectors K <? Z.of_nat 0 * SectorNumPerList K + SectorNumPerList K)
    with false in Hb0 by (symmetry; apply Z.ltb_ge; lia).
  lia.
Qed.

End FileHdrProperties.


(** C3 at a file of one sector. The file needs one data sector, yet
    [Allocate] fills the whole index sector 2 with the 32 sectors 3 to 34 and
    sets 33 bits of the free map: the bound of its inner loop is taken
    against [NumSectors], the size of the disk, not [numSectors]. *)
Theorem Allocate_reserves_whole_list :
  ∃ h (B' : Bitmap.t) (disk' : Disk),
    FileHdr.Allocate nachos (FileHdr.new nachos) fresh_map disk0 128
      = Ok (true, h, B', disk') ∧
    FileHdr.numSectors h = 1 ∧ FileHdr.numLists h = 1 ∧
    FileHdr.dataSectorLists h !! O = Some 2 ∧
    disk' 2 = seqZ 3 32 ∧
    B' = replicate 35 true ++ replicate 989 false.
Proof.
  eexists _, _, _. split; [vm_compute; reflexivity|].
  repeat split; vm_compute; reflexivity.
Qed.

(** C4 at a well-formed header of one sector (index sector 2, data sector
    3). Whatever the buffer holds, [Deallocate] leaves the bit of sector 2 or
    that of sector 3 set; and when the buffer happens to hold what the index
    sector holds, the data sector 3 is freed and the index sector 2 is
    not. *)
Theorem Deallocate_keeps_a_sector :
  one_sector_disk 2 !! O = Some 3 ∧
  (∀ heap (fm' : Bitmap.t),
     FileHdr.Deallocate nachos heap one_sector_header used_map = Ok fm' →
     Bitmap.bit fm' 2 = true ∨ Bitmap.bit fm' 3 = true) ∧
  (∀ heap, heap O O = 3 →
     FileHdr.Deallocate nachos heap one_sector_header used_map
       = Ok (replicate 3 true ++ replicate 1021 false)).
Proof.
  split; [reflexivity|]. split.
  - intros heap fm' H.
    apply Deallocate_one_sector in H as (which & Hw & _ & ->); [|done|done|done].
    destruct (decide (which = 2)) as [->|Hne].
    + right. rewrite bit_clear_ne by done. reflexivity.
    + left. rewrite bit_clear_ne by done. reflexivity.
  - intros heap Hh. unfold FileHdr.Deallocate.
    cbn [FileHdr.numLists one_sector_header].
    change (Z.to_nat 1) with 1%nat.
    cbn [FileHdr.dealloc_lists mbind outcome_bind].
    change (Z.to_nat _) with 1%nat at 1. cbn [FileHdr.clear_loop].
    rewrite Hh. vm_compute. reflexivity.
Qed.

(** C5 at a file of one sector on a fresh disk. [Allocate] succeeds; whatever
    the buffer of [Deallocate] holds, a sector that the allocation took is
    still marked afterwards. *)
Theorem Allocate_Deallocate_not_neutral :
  ∃ h (B' : Bitmap.t) (disk' : Disk),
    FileHdr.Allocate nachos (FileHdr.new nachos) fresh_map disk0 128
      = Ok (true, h, B', disk') ∧
    ∀ heap (B'' : Bitmap.t),
      FileHdr.Deallocate nachos heap h B' = Ok B'' →
      ∃ s, Bitmap.bit fresh_map s = false ∧ Bitmap.bit B' s = true ∧
           Bitmap.bit B'' s = true.
Proof.
  eexists _, _, _. split; [vm_compute; reflexivity|].
  intros heap B'' H.
  apply Deallocate_one_sector in H as (which & Hw & _ & ->); [|done|done|done].
  destruct (decide (which = 2)) as [->|Hne].
  - exists 3. rewrite bit_clear_ne by done. vm_compute. done.
  - exists 2. rewrite bit_clear_ne by done. vm_compute. done.
Qed.
(** ** Directories *)

Section DirProperties.

Import Dir.

Variable K : Constants.
Abbreviation n_ := (FileNameMaxLen K).

Lemma strncmp0_take n : ∀ s q1 q2,
  take n q1 = take n q2 → strncmp0 n s q1 = strncmp0 n s q2.
Proof.
  induction n as [|n IH]; intros s q1 q2 H; [done|].
  destruct q1 as [|c1 q1], q2 as [|c2 q2]; try done.
  simpl in H. injection H as -> H. simpl.
  destruct (Ascii.eqb (hd NUL s) c2); [|done].
  destruct (Ascii.eqb (hd NUL s) NUL); [done|]. by apply IH.
Qed.

Lemma FindIndex_from_take (table : Directory) : ∀ i q1 q2,
  take n_ q1 = take n_ q2 →
  FindIndex_from K i table q1 = FindIndex_from K i table q2.
Proof.
  induction table as [|e table IH]; intros i q1 q2 H; [done|].
  simpl. rewrite (strncmp0_take _ _ _ _ H).
  destruct (inUse e && _); [done|]. by apply IH.
Qed.

Lemma eqb_NUL_false c : c ≠ NUL → Ascii.eqb c NUL = false.
Proof. intros H. by apply Ascii.eqb_neq. Qed.

Lemma strncmp0_padded (l1 : list ascii) : ∀ l2 n rest,
  NUL ∉ l1 → NUL ∉ l2 → (length l1 <= n)%nat → (length l2 <= n)%nat →
  ((length l1 < n)%nat → hd NUL rest = NUL) →
  strncmp0 n (l1 ++ rest) l2 = true ↔ l1 = l2.
Proof.
  induction l1 as [|a l1 IH]; intros l2 n rest H1 H2 Hl1 Hl2 Hr.
  - destruct n as [|n].
    + destruct l2; [done | simpl in Hl2; lia].
    + cbn [strncmp0 app]. rewrite Hr by (simpl; lia).
      destruct l2 as [|b l2]; cbn [hd].
      * by rewrite Ascii.eqb_refl.
      * apply not_elem_of_cons in H2 as [Hb _].
        rewrite (Ascii.eqb_sym NUL b), eqb_NUL_false by done. done.
  - destruct n as [|n]; [simpl in Hl1; lia|].
    apply not_elem_of_cons in H1 as [Ha H1]. cbn [strncmp0 app hd tail].
    destruct l2 as [|b l2]; cbn [hd tail].
    + rewrite eqb_NUL_false by done. done.
    + apply not_elem_of_cons in H2 as [Hb H2].
      destruct (Ascii.eqb_spec a b) as [->|Hne].
      * rewrite eqb_NUL_false by done.
        rewrite IH; [| done | done | simpl in *; lia | simpl in *; lia
                     | intros; apply Hr; simpl; lia].
        split; [by intros -> | by intros [= ->]].
      * split; [done | by intros [= -> _]].
Qed.

Lemma strncpy_short old l :
  (length l <= n_)%nat →
  strncpy n_ old l = l ++ (replicate (n_ - length l) NUL ++ drop n_ old).
Proof.
  intros H. unfold strncpy. rewrite take_app_ge by done.
  rewrite take_replicate. rewrite <-app_assoc. do 3 f_equal. lia.
Qed.

Lemma cstring_id (l : list ascii) : NUL ∉ l → cstring l = l.
Proof.
  induction l as [|c l IH]; [done|]. intros [Hc Hl]%not_elem_of_cons.
  cbn [cstring]. rewrite eqb_NUL_false by done. by rewrite IH.
Qed.

Lemma Find_scan_leaf files table (leaf : list ascii) : ∀ acc,
  "/"%char ∉ leaf → (length acc + length leaf <= 128)%nat →
  Find_scan K files true table acc leaf = Ok (lookup_result K table (acc ++ leaf)).
Proof.
  induction leaf as [|c leaf IH]; intros acc Hs Hlen.
  - by rewrite app_nil_r.
  - apply not_elem_of_cons in Hs as [Hc Hs]. cbn [Find_scan].
    replace (Ascii.eqb c "/") with false by (symmetry; by apply Ascii.eqb_neq).
    replace (128 <=? length acc)%nat with false
      by (symmetry; apply Nat.leb_gt; simpl in Hlen; lia).
    rewrite IH; [| done | rewrite length_app; simpl in *; lia].
    by rewrite <-app_assoc.
Qed.

Lemma Find_top files table (leaf : list ascii) :
  NUL ∉ leaf → "/"%char ∉ leaf → (length leaf <= 128)%nat →
  Find K files table ("/"%char :: leaf) = Ok (lookup_result K table leaf).
Proof.
  intros H0 Hs Hlen. unfold Find.
  rewrite cstring_id by (apply not_elem_of_cons; split; done).
  cbn [Find_buffer]. by rewrite Find_scan_leaf.
Qed.

Lemma last_slash_None (l : list ascii) : "/"%char ∉ l → last_slash l = None.
Proof.
  induction l as [|c l IH]; [done|]. intros [Hc Hl]%not_elem_of_cons.
  cbn [last_slash]. rewrite IH by done.
  replace (Ascii.eqb c "/") with false; [done|].
  symmetry. by apply Ascii.eqb_neq.
Qed.

Lemma split_path_top (leaf : list ascii) :
  "/"%char ∉ leaf → (length leaf <= 9)%nat →
  split_path ("/"%char :: leaf) = Ok ([], leaf, true).
Proof.
  intros Hs Hlen. unfold split_path. cbn [last_slash].
  rewrite last_slash_None by done. rewrite Ascii.eqb_refl.
  change (drop 1 ("/"%char :: leaf)) with leaf. cbn [take].
  replace (9 <? length leaf)%nat with false by (symmetry; apply Nat.ltb_ge; lia).
  done.
Qed.

Lemma first_free_skip (table : Directory) k : ∀ n i,
  (∀ j, (i <= j < i + k)%nat → ∃ e, table !! j = Some e ∧ inUse e = true) →
  first_free (k + n) i table = first_free n (i + k) table.
Proof.
  induction k as [|k IH]; intros n i H.
  - by rewrite Nat.add_0_r.
  - cbn [Nat.add first_free]. destruct (H i ltac:(lia)) as (e & -> & ->).
    rewrite IH; [f_equal; lia|]. intros j Hj. apply H. lia.
Qed.

Lemma first_free_spec (table : Directory) n : ∀ i r,
  first_free n i table = Ok r →
  match r with
  | Some k =>
      (∃ e, table !! k = Some e ∧ inUse e = false) ∧
      (∀ j, (i <= j < k)%nat → ∃ e, table !! j = Some e ∧ inUse e = true)
  | None =>
      ∀ j, (i <= j < i + n)%nat → ∃ e, table !! j = Some e ∧ inUse e = true
  end.
Proof.
  induction n as [|n IH]; intros i r; cbn [first_free].
  - intros [= <-]. intros j Hj. lia.
  - destruct (table !! i) as [e|] eqn:E; [|discriminate].
    destruct (inUse e) eqn:Eu.
    + intros H. specialize (IH _ _ H). destruct r as [k|].
      * destruct IH as [H1 H2]. split; [done|]. intros j Hj.
        destruct (decide (j = i)) as [->|]; [eauto|]. apply H2. lia.
      * intros j Hj. destruct (decide (j = i)) as [->|]; [eauto|]. apply IH. lia.
    + intros [= <-]. split; [eauto|]. intros j Hj. lia.
Qed.

Lemma FindIndex_from_none (table : Directory) q : ∀ i,
  Forall (λ e, inUse e && strncmp0 n_ (name e) q = false) table →
  FindIndex_from K i table q = -1.
Proof.
  induction table as [|e table IH]; intros i H; [done|].
  apply Forall_cons in H as [He H]. cbn [FindIndex_from]. rewrite He. by apply IH.
Qed.

Lemma split_path_Ok (cname Path File : list ascii) term :
  split_path cname = Ok (Path, File, term) →
  ∃ slash, last_slash cname = Some slash ∧ Path = take slash cname ∧
           File = drop (S slash) cname ∧ (length File <= 9)%nat.
Proof.
  unfold split_path. destruct (last_slash cname) as [slash|]; [|discriminate].
  destruct (9 <? length (drop (S slash) cname))%nat eqn:E; [discriminate|].
  destruct (256 <? slash)%nat; [discriminate|].
  intros [= <- <- <-]. apply Nat.ltb_ge in E. eauto.
Qed.

Lemma last_slash_lt (l : list ascii) k : last_slash l = Some k → (k < length l)%nat.
Proof.
  revert k. induction l as [|c l IH]; intros k; [discriminate|].
  cbn [last_slash]. destruct (last_slash l) as [k'|].
  - intros [= <-]. specialize (IH _ eq_refl). simpl. lia.
  - destruct (Ascii.eqb c "/"); [|discriminate]. intros [= <-]. simpl. lia.
Qed.

Lemma take_nil_slash (l : list ascii) k :
  last_slash l = Some k → take k l = [] ↔ k = O.
Proof.
  intros H%last_slash_lt. destruct l as [|c l]; [simpl in H; lia|].
  destruct k; [done|]. split; [done | lia].
Qed.

Lemma first_free_lowest (table : Directory) n i :
  first_free n O table = Ok (Some i) → ∃ e, lowest_free table i e.
Proof.
  intros H. apply first_free_spec in H as [(e & He & Hu) Hlow].
  exists e. split; [done|]. split; [done|].
  intros j e' Hj He'. destruct (Hlow j ltac:(lia)) as (e'' & ? & ?). congruence.
Qed.

Lemma fill_slot_lowest (table : Directory) i e File sec ty :
  lowest_free table i e →
  fill_slot K table i File sec ty = <[i := new_entry K e File sec ty]> table.
Proof. intros (He & _). unfold fill_slot. by rewrite He. Qed.

Lemma Add_true_inv files (table : Directory) name sec ty (table' : Directory) files' :
  Add K files table name sec ty = Ok (true, table', files') →
  ∃ slash i,
    Find K files table name = Ok (-1) ∧
    last_slash (cstring name) = Some slash ∧
    (length (drop (S slash) (cstring name)) <= 9)%nat ∧
    ((slash = O ∧ files' = files ∧
      first_free (length table) O table = Ok (Some i) ∧
      table' = fill_slot K table i (drop 1 (cstring name)) sec ty)
     ∨
     (slash ≠ O ∧ table' = table ∧
      ∃ s, Find_buffer K files (slash <? 256)%nat table (take slash (cstring name)) = Ok s ∧
           sector_in_range K s = true ∧
           first_free (length table) O (FetchFrom K files s) = Ok (Some i) ∧
           files' = WriteBack (fill_slot K (FetchFrom K files s) i
                                 (drop (S slash) (cstring name)) sec ty) files s)).
Proof.
  unfold Add. intros H.
  apply bind_Ok in H as (found & Hfind & H).
  destruct (found =? -1) eqn:Ef; [|discriminate]. apply Z.eqb_eq in Ef as ->.
  cbn [negb] in H.
  apply bind_Ok in H as ([[Path File] term] & Hsplit & H).
  pose proof Hsplit as Hsplit'.
  apply split_path_Ok in Hsplit as (slash & Hls & -> & -> & Hlen).
  unfold split_path in Hsplit'. rewrite Hls in Hsplit'.
  destruct (9 <? _)%nat; [discriminate|]. destruct (256 <? slash)%nat; [discriminate|].
  injection Hsplit' as <-.
  pose proof (take_nil_slash _ _ Hls) as Hnil.
  destruct (take slash (cstring name)) as [|c Path] eqn:Et.
  - assert (slash = O) as -> by (by apply Hnil).
    apply bind_Ok in H as (slot & Hff & H).
    destruct slot as [i|]; [|discriminate]. injection H as <- <-.
    exists O, i. repeat (split; [done|]). left. done.
  - assert (slash ≠ O) by (intros Hz; apply Hnil in Hz; discriminate).
    apply bind_Ok in H as (s & Hs & H).
    apply bind_Ok in H as ([] & Ho%ASSERT_Ok & H).
    apply bind_Ok in H as (slot & Hff & H).
    destruct slot as [i|]; [|discriminate]. injection H as <- <-.
    exists slash, i. repeat (split; [done|]). right.
    repeat (split; [done|]). exists s. rewrite Et. done.
Qed.

Lemma holds_new_entry e l sec ty :
  (length l <= n_)%nat → holds K l (new_entry K e l sec ty).
Proof.
  intros Hl. split; [done|]. cbn [name new_entry]. rewrite strncpy_short by done.
  eexists; split; [done|]. intros Hlt.
  destruct (n_ - length l)%nat eqn:E; [lia|]. done.
Qed.

Lemma holds_strncmp l q e :
  short_name K l → short_name K q → holds K l e →
  inUse e && strncmp0 n_ (name e) q = true ↔ l = q.
Proof.
  intros (H1 & _ & H2) (H3 & _ & H4) (Hu & rest & -> & Hr). rewrite Hu.
  cbn [andb]. by apply strncmp0_padded.
Qed.

Lemma FindIndex_fresh names (used : Directory) m q :
  Forall2 (holds K) names used → Forall (short_name K) names → short_name K q →
  q ∉ names → FindIndex K (used ++ replicate m (zero_entry K)) q = -1.
Proof.
  intros Hh Hs Hq Hnot. apply FindIndex_from_none. apply Forall_app. split.
  - clear m. induction Hh as [|l e names used Hle Hh IH]; [done|].
    apply Forall_cons in Hs as [Hl Hs]. apply not_elem_of_cons in Hnot as [Hne Hnot].
    constructor; [|by apply IH].
    destruct (inUse e && strncmp0 n_ (name e) q) eqn:E; [|done].
    apply (holds_strncmp l q e) in E; [congruence|done..].
  - apply Forall_replicate. done.
Qed.

Lemma first_free_used (used : Directory) m :
  Forall (λ e, inUse e = true) used →
  first_free (length (used ++ replicate m (zero_entry K))) O
    (used ++ replicate m (zero_entry K))
  = Ok (match m with O => None | S _ => Some (length used) end).
Proof.
  intros Hu. rewrite length_app, length_replicate.
  rewrite first_free_skip.
  - destruct m as [|m]; [done|]. cbn [first_free Nat.add].
    rewrite lookup_app_r by lia. rewrite Nat.sub_diag. done.
  - intros j Hj. destruct (lookup_lt_is_Some_2 used j) as [e He]; [lia|].
    exists e. rewrite lookup_app_l by lia. split; [done|].
    eapply Forall_lookup_1 in Hu; eauto.
Qed.

Lemma holds_inUse names (used : Directory) :
  Forall2 (holds K) names used → Forall (λ e, inUse e = true) used.
Proof. induction 1 as [|l e ?? [H _]]; constructor; done. Qed.

Lemma Add_fresh files names (used : Directory) m leaf sec ty :
  (n_ <= 9)%nat →
  Forall2 (holds K) names used → Forall (short_name K) names → short_name K leaf →
  leaf ∉ names →
  Add K files (used ++ replicate m (zero_entry K)) (path_of leaf) sec ty =
  Ok (match m with
      | O => (false, used ++ replicate O (zero_entry K), files)
      | S m' => (true, (used ++ [new_entry K (zero_entry K) leaf sec ty])
                         ++ replicate m' (zero_entry K), files)
      end).
Proof.
  intros Hn Hh Hs Hleaf Hnot. pose proof Hleaf as (H0 & Hsl & Hlen).
  unfold Add, path_of. rewrite Find_top by (done || lia).
  unfold lookup_result. rewrite (FindIndex_fresh names) by done.
  cbn [mbind outcome_bind Z.eqb negb].
  rewrite cstring_id by (apply not_elem_of_cons; split; done).
  rewrite split_path_top by (done || lia). cbn [mbind outcome_bind].
  rewrite first_free_used by (by eapply holds_inUse).
  destruct m as [|m]; cbn [mbind outcome_bind]; [done|].
  do 3 f_equal. unfold fill_slot. pose proof (Forall2_length _ _ _ Hh) as Hl.
  rewrite lookup_app_r by lia. rewrite Nat.sub_diag. cbn [replicate lookup list_lookup].
  rewrite insert_app_r_alt by lia. rewrite Nat.sub_diag. cbn [list_insert insert].
  by rewrite <-app_assoc.
Qed.


Lemma new_table (M : nat) : Dir.new K M = [] ++ replicate M (zero_entry K).
Proof. done. Qed.

Lemma split_path_nested (cname : list ascii) k :
  last_slash cname = Some (S k) →
  ∀ r, split_path cname = Ok r →
  ∃ c Path, take (S k) cname = c :: Path ∧
            r = (c :: Path, drop (S (S k)) cname, (S k <? 256)%nat).
Proof.
  intros Hls [[Path File] term] H. pose proof (last_slash_lt _ _ Hls) as Hlt.
  unfold split_path in H. rewrite Hls in H.
  destruct (9 <? _)%nat; [discriminate|]. destruct (256 <? S k)%nat; [discriminate|].
  injection H as <- <- <-.
  destruct cname as [|c cname]; [simpl in Hlt; lia|]. exists c, (take k cname). done.
Qed.

(** C10. When the last '/' of the path is not its first byte, [Add] and
    [Remove] return with the table of the directory they were called on as
    it was. On success the change is made in the copy of the parent
    directory loaded from the sector that [Find] gave for the parent path,
    and that copy is written back to the same sector; on failure the files
    are as they were. *)
Theorem nested_path_leaves_table files (table : Directory) path sec ty k :
  last_slash (cstring path) = Some (S k) →
  let Path := take (S k) (cstring path) in
  let File := drop (S (S k)) (cstring path) in
  (∀ b (table1 : Directory) files1,
     Add K files table path sec ty = Ok (b, table1, files1) →
     table1 = table ∧
     if b then
       ∃ s i, Find_buffer K files (S k <? 256)%nat table Path = Ok s ∧
              files1 = WriteBack
                         (fill_slot K (FetchFrom K files s) i File sec ty)
                         files s
     else files1 = files) ∧
  (∀ b (table1 : Directory) files1,
     Remove K files table path = Ok (b, table1, files1) →
     table1 = table ∧
     if b then
       ∃ s, Find_buffer K files (S k <? 256)%nat table Path = Ok s ∧
            files1 = WriteBack
                       (clear_slot (FetchFrom K files s)
                          (FindIndex K (FetchFrom K files s) File))
                       files s
     else files1 = files).
Proof.
  intros Hls Path File. split; intros b table1 files1 H.
  - unfold Add in H. apply bind_Ok in H as (found & _ & H).
    destruct (negb (found =? -1)); [by injection H as <- <- <-|].
    apply bind_Ok in H as (r & Hsplit & H).
    apply (split_path_nested _ _ Hls) in Hsplit as (c & P & HP & ->).
    apply bind_Ok in H as (s & Hs & H).
    apply bind_Ok in H as ([] & _ & H).
    apply bind_Ok in H as (slot & _ & H).
    destruct slot as [i|]; injection H as <- <- <-; [|done].
    split; [done|]. exists s, i. unfold Path. rewrite HP. done.
  - unfold Remove in H. apply bind_Ok in H as (found & _ & H).
    destruct (found =? -1); [by injection H as <- <- <-|].
    apply bind_Ok in H as (r & Hsplit & H).
    apply (split_path_nested _ _ Hls) in Hsplit as (c & P & HP & ->).
    apply bind_Ok in H as (s & Hs & H).
    apply bind_Ok in H as ([] & _ & H).
    destruct (FindIndex K (FetchFrom K files s) _ =? -1);
      injection H as <- <- <-; [done|].
    split; [done|]. exists s. unfold Path. rewrite HP. done.
Qed.

Lemma Find_top_take files (table : Directory) (q1 q2 : list ascii) :
  NUL ∉ q1 → "/"%char ∉ q1 → (length q1 <= 128)%nat →
  NUL ∉ q2 → "/"%char ∉ q2 → (length q2 <= 128)%nat →
  take n_ q1 = take n_ q2 →
  Find K files table (path_of q1) = Find K files table (path_of q2).
Proof.
  intros. unfold path_of. rewrite !Find_top by done. f_equal.
  unfold lookup_result, FindIndex. by rewrite (FindIndex_from_take table O q1 q2).
Qed.

(** *** The defects of [Add] and [Remove], in general *)

(** No [Add] of a leaf longer than the nine bytes of [File] succeeds. *)
Lemma Add_long_leaf_never_succeeds files (table : Directory) path sec ty slash :
  last_slash (cstring path) = Some slash →
  (9 < length (drop (S slash) (cstring path)))%nat →
  ∀ (table' : Directory) files',
    Add K files table path sec ty ≠ Ok (true, table', files').
Proof.
  intros Hls Hlen table' files' H.
  apply Add_true_inv in H as (slash' & i & _ & Hls' & Hlen' & _).
  rewrite Hls in Hls'. injection Hls' as <-. lia.
Qed.

Lemma cstring_elem (l : list ascii) c : c ∈ cstring l → c ∈ l.
Proof.
  induction l as [|a l IH]; [done|]. cbn [cstring].
  destruct (Ascii.eqb a NUL); [by intros ?%elem_of_nil|].
  intros [->|H]%elem_of_cons; [left | right; auto].
Qed.

Lemma strncmp0_head n s q :
  hd NUL s ≠ hd NUL q → strncmp0 (S n) s q = false.
Proof.
  intros H. cbn [strncmp0]. by apply Ascii.eqb_neq in H as ->.
Qed.

Lemma last_slash_None_inv (l : list ascii) :
  last_slash l = None → "/"%char ∉ l.
Proof.
  induction l as [|c l IH]; [intros _ ?%elem_of_nil; done|].
  cbn [last_slash]. destruct (last_slash l); [discriminate|].
  destruct (Ascii.eqb_spec c "/"); [discriminate|].
  intros _. apply not_elem_of_cons. split; [done | by apply IH].
Qed.

Lemma last_slash_drop (l : list ascii) : ∀ k,
  last_slash l = Some k → "/"%char ∉ drop (S k) l.
Proof.
  induction l as [|c l IH]; intros k; [discriminate|].
  cbn [last_slash]. destruct (last_slash l) as [k'|] eqn:E.
  - intros [= <-]. by apply IH.
  - destruct (Ascii.eqb c "/"); [|discriminate]. intros [= <-].
    by apply last_slash_None_inv.
Qed.

(** Neither the constructor nor [Add] stores a name that begins with '/'. *)
Lemma new_plain (M : nat) : Forall plain_name (Dir.new K M).
Proof. apply Forall_replicate. unfold plain_name. by destruct (FileNameMaxLen K). Qed.

Lemma Add_keeps_plain files (table : Directory) path sec ty b
  (table' : Directory) files' :
  Forall plain_name table →
  Add K files table path sec ty = Ok (b, table', files') →
  Forall plain_name table'.
Proof.
  intros Hp H. destruct b.
  - apply Add_true_inv in H as (slash & i & _ & Hls & _ & H).
    destruct H as [(-> & _ & Hff & ->) | (_ & -> & _)]; [|done].
    apply first_free_lowest in Hff as [e He].
    rewrite (fill_slot_lowest _ _ _ _ _ _ He). destruct He as (He & _).
    apply Forall_insert; [done|].
    pose proof (Forall_lookup_1 _ _ _ _ Hp He) as Hpe.
    pose proof (last_slash_drop _ _ Hls) as Hnot.
    unfold plain_name, new_entry, strncpy in *. cbn [name].
    destruct (FileNameMaxLen K) as [|n]; [by rewrite drop_0|].
    destruct (drop 1 (cstring path)) as [|c leaf]; [done|].
    apply not_elem_of_cons in Hnot as [Hc _]. cbn. congruence.
  - unfold Add in H. apply bind_Ok in H as (found & _ & H).
    destruct (negb (found =? -1)); [by injection H as <- <-|].
    apply bind_Ok in H as ([[Path File] term] & _ & H).
    destruct Path.
    + apply bind_Ok in H as ([i|] & _ & H); [discriminate|].
      by injection H as <- <-.
    + apply bind_Ok in H as (s & _ & H). apply bind_Ok in H as ([] & _ & H).
      apply bind_Ok in H as ([i|] & _ & H); [discriminate|].
      by injection H as <- <-.
Qed.

(** In a directory whose names do not begin with '/', so in any directory
    built by [Add], no [Remove] of a leaf of this directory succeeds. *)
Lemma Remove_top_level_never_succeeds files (table : Directory) leaf :
  (0 < FileNameMaxLen K)%nat → "/"%char ∉ leaf →
  Forall plain_name table →
  ∀ (table' : Directory) files',
    Remove K files table (path_of leaf) ≠ Ok (true, table', files').
Proof.
  intros Hn Hs Hnames table' files' H. unfold Remove, path_of in H.
  apply bind_Ok in H as (found & _ & H).
  destruct (found =? -1); [discriminate|].
  assert (Ec : cstring ("/"%char :: leaf) = "/"%char :: cstring leaf) by done.
  rewrite Ec in H.
  assert (Hs' : "/"%char ∉ cstring leaf) by (intros ?%cstring_elem; done).
  unfold split_path in H. cbn [last_slash] in H.
  rewrite last_slash_None, Ascii.eqb_refl in H by done.
  change (drop 1 ("/"%char :: cstring leaf)) with (cstring leaf) in H.
  cbn [take] in H.
  destruct (9 <? length (cstring leaf))%nat; [discriminate|].
  cbn [Nat.ltb Nat.leb mbind outcome_bind] in H.
  assert (E : FindIndex K table ("/"%char :: cstring leaf) = -1).
  { apply FindIndex_from_none. eapply Forall_impl; [exact Hnames|].
    intros e He. cbn beta. destruct (FileNameMaxLen K) as [|n]; [lia|].
    rewrite strncmp0_head by done. apply andb_false_r. }
  rewrite E in H. discriminate.
Qed.

End DirProperties.


(** ** Directories: the defects, at concrete states *)

(** C1 at a leaf of the root. After [Add("/a", 17, 'F')] on an empty
    directory, [Find("/a")] resolves to 17, yet [Remove("/a")] returns
    failure and leaves the entry in use: with an empty parent part it looks
    up the whole path, "/a", where the part after the '/' is stored. *)
Theorem Remove_top_level_refused :
  ∃ root : Dir.Directory,
    Dir.Add nachos empty_files (Dir.new nachos 10) (chars "/a") 17 "F"
      = Ok (true, root, empty_files) ∧
    Dir.Find nachos empty_files root (chars "/a") = Ok 17 ∧
    Dir.Remove nachos empty_files root (chars "/a")
      = Ok (false, root, empty_files) ∧
    Dir.FindIndex nachos root (chars "/a") = -1 ∧
    Dir.FindIndex nachos root (chars "a") = 0.
Proof.
  eexists. split; [vm_compute; reflexivity|].
  repeat split; vm_compute; reflexivity.
Qed.

(** C8 at a leaf of ten bytes. [Add] on an empty directory does not return:
    the loop that copies the leaf writes [File[9]], past the nine bytes of
    [File], before the [strncpy] that would cut the name. *)
Theorem Add_long_leaf_overruns_File :
  (FileNameMaxLen nachos < length (chars "abcdefghij"))%nat ∧
  Dir.Add nachos empty_files (Dir.new nachos 10) (chars "/abcdefghij") 17 "F"
    = Fault.
Proof. split; [vm_compute; lia | vm_compute; reflexivity]. Qed.

(** C9 at two names that agree on their first nine bytes. [FindIndex] gives
    the same index for both, but [Add] tells them apart: it succeeds on the
    name of nine bytes and runs past [File] on the name of ten. *)
Theorem Add_tells_long_names_apart :
  chars "abcdefghi" ≠ chars "abcdefghij" ∧
  take (FileNameMaxLen nachos) (chars "abcdefghi")
    = take (FileNameMaxLen nachos) (chars "abcdefghij") ∧
  (∃ root : Dir.Directory,
     Dir.Add nachos empty_files (Dir.new nachos 10) (chars "/abcdefghi") 17 "F"
       = Ok (true, root, empty_files) ∧
     Dir.FindIndex nachos root (chars "abcdefghi") = 0 ∧
     Dir.FindIndex nachos root (chars "abcdefghij") = 0) ∧
  Dir.Add nachos empty_files (Dir.new nachos 10) (chars "/abcdefghij") 17 "F"
    = Fault.
Proof.
  split; [discriminate|]. split; [reflexivity|]. split.
  - eexists. split; [vm_compute; reflexivity|]. split; vm_compute; reflexivity.
  - vm_compute; reflexivity.
Qed.

(** ** The scenarios of the specification, run on the embedding *)

(** Scenario 1: the root is empty after formatting. *)
Example scenario_empty_root :
  Dir.Find nachos empty_files (Dir.new nachos 10) (chars "/a") = Ok (-1).
Proof. vm_compute. reflexivity. Qed.

(** Scenarios 2 and 3: one [Add], then a second one of the same path. *)
Example scenario_add_twice :
  ∃ root : Dir.Directory,
    Dir.Add nachos empty_files (Dir.new nachos 10) (chars "/a") 17 "F"
      = Ok (true, root, empty_files) ∧
    (∃ e, root !! O = Some e ∧ Dir.inUse e = true ∧ Dir.type e = "F"%char ∧
          Dir.cstring (Dir.name e) = chars "a") ∧
    Dir.Add nachos empty_files root (chars "/a") 23 "F"
      = Ok (false, root, empty_files) ∧
    Dir.Find nachos empty_files root (chars "/a") = Ok 17.
Proof.
  eexists. split; [vm_compute; reflexivity|]. split.
  - eexists. split; [vm_compute; reflexivity|]. repeat split.
  - split; vm_compute; reflexivity.
Qed.

(** Scenario 4: a file in the subdirectory "d". *)
Example scenario_nested_add :
  ∃ files1,
    Dir.Add nachos empty_files root_d (chars "/d/x") 77 "F"
      = Ok (true, root_d, files1) ∧
    Dir.Find nachos files1 root_d (chars "/d/x") = Ok 77 ∧
    Dir.Find nachos files1 root_d (chars "/d") = Ok 50.
Proof.
  eexists. split; [vm_compute; reflexivity|]. split; vm_compute; reflexivity.
Qed.

(** Scenario 5, up to the refusal: a directory of capacity 2. *)
Example scenario_full_directory :
  ∃ root : Dir.Directory,
    Dir.Add_each nachos empty_files (Dir.new nachos 2)
      [(chars "a", 10, "F"%char); (chars "b", 11, "F"%char);
       (chars "c", 12, "F"%char)]
      = Ok ([true; true; false], root, empty_files).
Proof. eexists. vm_compute. reflexivity. Qed.

(** Removing a file of a subdirectory works: [Find] no longer resolves. *)
Example scenario_nested_remove :
  ∃ files1 files2,
    Dir.Add nachos empty_files root_d (chars "/d/x") 77 "F"
      = Ok (true, root_d, files1) ∧
    Dir.Remove nachos files1 root_d (chars "/d/x") = Ok (true, root_d, files2) ∧
    Dir.Find nachos files2 root_d (chars "/d/x") = Ok (-1).
Proof.
  eexists _, _. split; [vm_compute; reflexivity|].
  split; vm_compute; reflexivity.
Qed.

(** ** File headers: what [Allocate] and [Deallocate] keep *)

Section FileHdrMore.

Import FileHdr.

Variable K : Constants.

Lemma FindAndSet_length (b b' : Bitmap.t) s :
  Bitmap.FindAndSet b = (s, b') → length b' = length b.
Proof.
  unfold Bitmap.FindAndSet. destruct (Bitmap.find_clear b).
  - intros [= <- <-]. apply length_insert.
  - by intros [= <- <-].
Qed.

Lemma bit_false_mono (fm fm' : Bitmap.t) :
  (∀ x, Bitmap.bit fm x = true → Bitmap.bit fm' x = true) →
  ∀ v, Bitmap.bit fm' v = false → Bitmap.bit fm v = false.
Proof.
  intros H v Hv. destruct (Bitmap.bit fm v) eqn:E; [|done].
  apply H in E. congruence.
Qed.

(** The inner loop: map length, buffer length, slots filled. *)
Lemma fill_buffer_spec n : ∀ j buf (fm : Bitmap.t) buf' (fm' : Bitmap.t),
  fill_buffer n j buf fm = Ok (buf', fm') →
  length fm' = length fm ∧ length buf' = length buf ∧
  (∀ t, (j <= t < j + n)%nat →
     ∃ v, buf' !! t = Some v ∧ Bitmap.bit fm v = false ∧ Bitmap.bit fm' v = true).
Proof.
  induction n as [|n IH]; intros j buf fm buf' fm'; cbn [fill_buffer].
  - intros [= <- <-]. repeat split; try done. intros t Ht. lia.
  - destruct (Bitmap.FindAndSet fm) as [s fm1] eqn:E.
    destruct (length buf <=? j)%nat eqn:Ej; [discriminate|].
    apply Nat.leb_gt in Ej.
    intros H. apply bind_Ok in H as ([] & Ha%ASSERT_Ok & H).
    apply Z.leb_le in Ha. pose proof H as Hrun.
    apply IH in H as (Hl & Hb & Hslots).
    destruct (FindAndSet_spec _ _ _ E Ha) as (Hfree & Hset & Hkeep).
    pose proof (fill_buffer_keeps _ _ _ _ _ _ Hrun) as Hkeep2.
    rewrite length_insert in Hb.
    split; [rewrite Hl; by eapply FindAndSet_length|]. split; [done|].
    intros t Ht. destruct (decide (t = j)) as [->|Hne].
    + exists s. split; [|split; [done | by apply Hkeep2]].
      assert (Hpre : ∀ m jj b0 (f0 : Bitmap.t) b1 (f1 : Bitmap.t),
                 fill_buffer m jj b0 f0 = Ok (b1, f1) →
                 ∀ t, (t < jj)%nat → b1 !! t = b0 !! t).
      { clear. induction m as [|m IHm]; intros jj b0 f0 b1 f1; cbn [fill_buffer].
        - by intros [= <- <-].
        - destruct (Bitmap.FindAndSet f0) as [s f2].
          destruct (length b0 <=? jj)%nat; [discriminate|].
          intros H. apply bind_Ok in H as ([] & _ & H). intros t Ht.
          rewrite (IHm _ _ _ _ _ H) by lia. apply list_lookup_insert_ne. lia. }
      rewrite (Hpre _ _ _ _ _ _ Hrun) by lia. by apply list_lookup_insert_eq.
    + destruct (Hslots t ltac:(lia)) as (v & Hv & Hf & Hs).
      exists v. split; [done|]. split; [|done].
      by apply (bit_false_mono fm fm1).
Qed.

Lemma alloc_lists_spec n : ∀ i h (fm : Bitmap.t) disk h' (fm' : Bitmap.t) disk',
  alloc_lists K n i h fm disk = Ok (h', fm', disk') →
  same_sizes h h' ∧ length fm' = length fm ∧
  (∀ x, Bitmap.bit fm x = true → Bitmap.bit fm' x = true ∧ disk' x = disk x) ∧
  (∀ k, (k < i)%nat → dataSectorLists h' !! k = dataSectorLists h !! k) ∧
  (∀ k, (i <= k < i + n)%nat →
     ∃ s, dataSectorLists h' !! k = Some s ∧
          Bitmap.bit fm s = false ∧ Bitmap.bit fm' s = true ∧
          sector_in_range K s = true ∧
          length (disk' s) = Z.to_nat (SectorNumPerList K) ∧
          ∀ j, (j < list_count K k)%nat →
            ∃ v, disk' s !! j = Some v ∧
                 Bitmap.bit fm v = false ∧ Bitmap.bit fm' v = true).
Proof.
  induction n as [|n IH]; intros i h fm disk h' fm' disk' H.
  - cbn [alloc_lists] in H. injection H as <- <- <-.
    split; [done|]. split; [done|]. split; [done|]. split; [done|].
    intros k Hk. lia.
  - apply alloc_lists_step in H
      as (s & fm1 & buf & fm2 & disk1 & Hf & Hl & Hs & Hb & Hw & H).
    apply IH in H as (Hsz & Hlen & Hkeep & Hold & Hnew).
    destruct (FindAndSet_spec _ _ _ Hf Hs) as (Hfree & Hset & Hk1).
    pose proof (fill_buffer_keeps _ _ _ _ _ _ Hb) as Hk2.
    apply fill_buffer_spec in Hb as (Hl2 & Hbl & Hslots).
    apply WriteSector_Ok in Hw as [Hr ->].
    assert (Hk12 : ∀ x, Bitmap.bit fm x = true → Bitmap.bit fm2 x = true)
      by (intros x Hx; apply Hk2, Hk1, Hx).
    split; [|split; [|split; [|split]]].
    + destruct Hsz as (? & ? & ? & Hd). repeat split; try done.
      rewrite Hd. cbn. apply length_insert.
    + rewrite Hlen, Hl2. by eapply FindAndSet_length.
    + intros x Hx. destruct (Hkeep x (Hk12 x Hx)) as [Hx' ->]. split; [done|].
      destruct (Z.eqb_spec x s) as [->|]; [congruence | done].
    + intros k Hk. rewrite Hold by lia. cbn. apply list_lookup_insert_ne. lia.
    + intros k Hk. destruct (decide (k = i)) as [->|Hne].
      * exists s. rewrite Hold by lia. cbn.
        destruct (Hkeep s (Hk2 _ Hset)) as [Hs' Hd]. rewrite Hd, Z.eqb_refl.
        split; [by apply list_lookup_insert_eq|]. split; [done|].
        split; [done|]. split; [done|].
        split; [by rewrite Hbl, length_replicate|].
        intros j Hj. destruct (Hslots j) as (v & Hv & Hvf & Hvs).
        { fold (list_count K i). lia. }
        exists v. split; [done|]. split; [by apply (bit_false_mono fm fm1)|].
        by apply Hkeep.
      * destruct (Hnew k ltac:(lia)) as (s' & Hd & Hf' & Hs' & Hr' & Hl' & Hsl).
        exists s'. split; [done|]. split; [by apply (bit_false_mono fm fm2)|].
        split; [done|]. split; [done|]. split; [done|].
        intros j Hj. destruct (Hsl j Hj) as (v & Hv & Hvf & Hvs).
        exists v. split; [done|]. split; [by apply (bit_false_mono fm fm2)|done].
Qed.

Lemma alloc_lists_distinct n : ∀ i h (fm : Bitmap.t) disk h' (fm' : Bitmap.t) disk',
  alloc_lists K n i h fm disk = Ok (h', fm', disk') →
  ∀ k1 k2 s1 s2, (i <= k1 < k2)%nat → (k2 < i + n)%nat →
    dataSectorLists h' !! k1 = Some s1 → dataSectorLists h' !! k2 = Some s2 →
    s1 ≠ s2.
Proof.
  induction n as [|n IH]; intros i h fm disk h' fm' disk' H k1 k2 s1 s2 Hk Hk2.
  - lia.
  - apply alloc_lists_step in H
      as (s & fm1 & buf & fm2 & disk1 & Hf & Hl & Hs & Hb & Hw & H).
    destruct (decide (k1 = i)) as [->|Hne].
    + pose proof (alloc_lists_spec _ _ _ _ _ _ _ _ H)
        as (_ & _ & _ & Hold & Hnew).
      destruct (FindAndSet_spec _ _ _ Hf Hs) as (_ & Hset & _).
      pose proof (fill_buffer_keeps _ _ _ _ _ _ Hb _ Hset) as Hset2.
      rewrite Hold by lia. cbn. rewrite list_lookup_insert_eq by done.
      intros [= <-] H2. destruct (Hnew k2 ltac:(lia)) as (s' & Hd & Hfree & _).
      rewrite H2 in Hd. injection Hd as <-. congruence.
    + apply (IH _ _ _ _ _ _ _ H); lia.
Qed.

Lemma Allocate_true_inv h (B : Bitmap.t) disk f h' (B' : Bitmap.t) disk' :
  Allocate K h B disk f = Ok (true, h', B', disk') →
  alloc_lists K (Z.to_nat (numLists (header_of K h f))) O (header_of K h f) B disk
    = Ok (h', B', disk').
Proof.
  unfold Allocate. destruct (Bitmap.NumClear B <? _); [discriminate|].
  intros H. apply bind_Ok in H as ([[h1 B1] d1] & H & [= -> -> ->]). done.
Qed.

(** X1. Whatever [Allocate] returns, the free map keeps its length, every
    sector that was marked is still marked, and no sector that was marked
    has been written on the disk. *)
Theorem Allocate_only_marks h (B : Bitmap.t) disk f b h' (B' : Bitmap.t) disk' :
  Allocate K h B disk f = Ok (b, h', B', disk') →
  length B' = length B ∧
  ∀ x, Bitmap.bit B x = true → Bitmap.bit B' x = true ∧ disk' x = disk x.
Proof.
  destruct b.
  - intros H%Allocate_true_inv.
    apply alloc_lists_spec in H as (_ & Hl & Hk & _). done.
  - unfold Allocate. destruct (Bitmap.NumClear B <? _).
    + by intros [= <- <- <-].
    + intros H. apply bind_Ok in H as ([[h1 B1] d1] & _ & H). discriminate.
Qed.

Lemma list_count_full (i : nat) :
  0 <= SectorNumPerList K →
  (Z.of_nat i + 1) * SectorNumPerList K <= NumSectors K →
  list_count K i = Z.to_nat (SectorNumPerList K).
Proof.
  intros HL Hd. unfold list_count, lastSectorNum_alloc.
  replace (NumSectors K <? _) with false by (symmetry; apply Z.ltb_ge; lia).
  f_equal. lia.
Qed.

Lemma alloc_lists_count n : ∀ i h (fm : Bitmap.t) disk h' (fm' : Bitmap.t) disk',
  0 <= SectorNumPerList K →
  Z.of_nat (i + n) * SectorNumPerList K <= NumSectors K →
  alloc_lists K n i h fm disk = Ok (h', fm', disk') →
  Bitmap.NumClear fm
    = Bitmap.NumClear fm' + Z.of_nat n * (1 + SectorNumPerList K).
Proof.
  induction n as [|n IH]; intros i h fm disk h' fm' disk' HL Hd H.
  - cbn [alloc_lists] in H. injection H as <- <- <-. lia.
  - apply alloc_lists_step in H
      as (s & fm1 & buf & fm2 & disk1 & Hf & Hl & Hs & Hb & Hw & H).
    apply IH in H; [|done|lia].
    apply fill_buffer_count in Hb. apply FindAndSet_count in Hf; [|done].
    fold (list_count K i) in Hb. rewrite list_count_full in Hb by lia. lia.
Qed.

Lemma divRoundUp_nonneg n s : 0 <= n → 0 < s → 0 <= divRoundUp n s.
Proof.
  intros Hn Hs. rewrite divRoundUp_ceiling by done. apply Z.div_pos; lia.
Qed.

(** X2. On a disk that holds [numLists] full lists, a successful [Allocate]
    takes exactly [numLists * (1 + L)] sectors from the free map: an index
    sector and a whole list of data sectors per list. *)
Theorem Allocate_cost h (B : Bitmap.t) disk f h' (B' : Bitmap.t) disk' :
  0 < SectorSize K → 0 < SectorNumPerList K → 0 <= f →
  divRoundUp (divRoundUp f (SectorSize K)) (SectorNumPerList K)
    * SectorNumPerList K <= NumSectors K →
  Allocate K h B disk f = Ok (true, h', B', disk') →
  numLists h' = divRoundUp (divRoundUp f (SectorSize K)) (SectorNumPerList K) ∧
  Bitmap.NumClear B
    = Bitmap.NumClear B' + numLists h' * (1 + SectorNumPerList K).
Proof.
  intros HS HL Hf Hd H%Allocate_true_inv.
  pose proof (divRoundUp_nonneg _ _ Hf HS) as HnS.
  pose proof (divRoundUp_nonneg _ _ HnS HL) as HnL.
  pose proof (alloc_lists_spec _ _ _ _ _ _ _ _ H) as ((_ & _ & HL' & _) & _).
  cbn [numLists header_of] in *. split; [done|].
  apply alloc_lists_count in H;
    [| lia | rewrite ?Nat.add_0_l, ?Z2Nat.id by done; first [exact Hd | lia]].
  rewrite Z2Nat.id in H by done. rewrite HL'. done.
Qed.

(** X3. After a successful [Allocate] each of the first [numLists] entries
    of [dataSectorLists] is a sector of the disk that was free before and is
    marked now, and these index sectors are pairwise different. *)
Theorem Allocate_index_sectors h (B : Bitmap.t) disk f h' (B' : Bitmap.t) disk' :
  Allocate K h B disk f = Ok (true, h', B', disk') →
  (∀ k : nat, Z.of_nat k < numLists h' →
     ∃ s, dataSectorLists h' !! k = Some s ∧
          Bitmap.bit B s = false ∧ Bitmap.bit B' s = true ∧
          sector_in_range K s = true) ∧
  (∀ (k1 k2 : nat) s1 s2,
     k1 ≠ k2 → Z.of_nat k1 < numLists h' → Z.of_nat k2 < numLists h' →
     dataSectorLists h' !! k1 = Some s1 → dataSectorLists h' !! k2 = Some s2 →
     s1 ≠ s2).
Proof.
  intros H%Allocate_true_inv.
  pose proof (alloc_lists_spec _ _ _ _ _ _ _ _ H)
    as ((_ & _ & HL' & _) & _ & _ & _ & Hnew).
  cbn [numLists header_of] in HL', Hnew. rewrite HL'. split.
  - intros k Hk. destruct (Hnew k ltac:(lia)) as (s & ? & ? & ? & ? & _). eauto.
  - intros k1 k2 s1 s2 Hne Hk1 Hk2 H1 H2.
    destruct (decide (k1 < k2)%nat).
    + cbn [numLists header_of] in H.
      apply (alloc_lists_distinct _ _ _ _ _ _ _ _ H k1 k2); (done || lia).
    + intros ->. cbn [numLists header_of] in H.
      apply (alloc_lists_distinct _ _ _ _ _ _ _ _ H k2 k1 s2 s2); (done || lia).
Qed.

Lemma offset_indices f offset :
  0 < SectorSize K → 0 < SectorNumPerList K → 0 <= offset < f →
  0 <= offset / SectorSize K / SectorNumPerList K
    < divRoundUp (divRoundUp f (SectorSize K)) (SectorNumPerList K) ∧
  0 <= (offset / SectorSize K) mod SectorNumPerList K < SectorNumPerList K.
Proof.
  intros HS HL Hoff.
  assert (Hk : 0 <= offset / SectorSize K < divRoundUp f (SectorSize K)).
  { rewrite divRoundUp_pred by lia. split; [apply Z.div_pos; lia|].
    assert (offset / SectorSize K <= (f - 1) / SectorSize K)
      by (apply Z.div_le_mono; lia).
    lia. }
  remember (offset / SectorSize K) as k eqn:Ek. clear Ek.
  remember (divRoundUp f (SectorSize K)) as nS eqn:En. clear En.
  split; [|apply Z.mod_pos_bound; lia].
  rewrite divRoundUp_pred by lia. split; [apply Z.div_pos; lia|].
  assert (k / SectorNumPerList K <= (nS - 1) / SectorNumPerList K)
    by (apply Z.div_le_mono; lia).
  lia.
Qed.

(** X4. After a successful [Allocate] on a disk that holds [numLists] full
    lists, [ByteToSector] returns, for every offset inside the file, a
    sector that was free before the allocation and is marked after it. *)
Theorem ByteToSector_after_Allocate h (B : Bitmap.t) disk f h' (B' : Bitmap.t)
  disk' offset :
  0 < SectorSize K → 0 < SectorNumPerList K →
  divRoundUp (divRoundUp f (SectorSize K)) (SectorNumPerList K)
    * SectorNumPerList K <= NumSectors K →
  Allocate K h B disk f = Ok (true, h', B', disk') →
  0 <= offset < f →
  ∃ v, ByteToSector K h' disk' offset = Ok v ∧
       Bitmap.bit B v = false ∧ Bitmap.bit B' v = true.
Proof.
  intros HS HL Hd H%Allocate_true_inv Hoff.
  pose proof (alloc_lists_spec _ _ _ _ _ _ _ _ H)
    as ((_ & _ & HL' & _) & _ & _ & _ & Hnew).
  cbn [numLists header_of] in HL', Hnew.
  destruct (offset_indices f offset HS HL Hoff) as [Hi Hj].
  unfold ByteToSector.
  rewrite (Z.quot_div_nonneg offset) by lia.
  assert (Hk : 0 <= offset / SectorSize K) by (apply Z.div_pos; lia).
  rewrite Z.quot_div_nonneg, Z.rem_mod_nonneg by lia.
  remember (offset / SectorSize K / SectorNumPerList K) as i eqn:Ei.
  remember ((offset / SectorSize K) mod SectorNumPerList K) as j eqn:Ej.
  clear Ei Ej Hk.
  remember (divRoundUp (divRoundUp f (SectorSize K)) (SectorNumPerList K)) as nL.
  destruct (Hnew (Z.to_nat i)) as (s & Hs & _ & _ & Hr & Hlen & Hslots); [lia|].
  destruct (Hslots (Z.to_nat j)) as (v & Hv & Hfree & Hset).
  { rewrite list_count_full by nia. lia. }
  exists v. split; [|done]. unfold index.
  replace (0 <=? i) with true by (symmetry; apply Z.leb_le; lia).
  rewrite Hs. unfold ReadSector. rewrite Hr. simpl.
  replace (0 <=? j) with true by (symmetry; apply Z.leb_le; lia).
  replace (j <? SectorNumPerList K) with true by (symmetry; apply Z.ltb_lt; lia).
  simpl. f_equal. by apply nth_lookup_Some.
Qed.

(** X6. A file of size 0 takes nothing: [Allocate] succeeds and leaves the
    free map and the disk as they are, the header has length 0, and
    [Deallocate] of that header leaves the free map as it is. *)
Theorem empty_file_takes_nothing h (B : Bitmap.t) disk heap :
  Allocate K h B disk 0 = Ok (true, header_of K h 0, B, disk) ∧
  FileLength (header_of K h 0) = 0 ∧
  Deallocate K heap (header_of K h 0) B = Ok B.
Proof.
  assert (E : ∀ s, divRoundUp 0 s = 0).
  { intros s. reflexivity. }
  unfold Allocate, Deallocate, header_of, FileLength. cbn [numSectors numLists numBytes].
  rewrite !E. replace (Bitmap.NumClear B <? 0) with false; [done|].
  symmetry. apply Z.ltb_ge. unfold Bitmap.NumClear. lia.
Qed.

Lemma bit_clear_le (b : Bitmap.t) (which x : Z) :
  Bitmap.bit (<[Z.to_nat which := false]> b) x = true → Bitmap.bit b x = true.
Proof.
  intros [Hx Hl]%bit_lookup. apply bit_lookup. split; [done|].
  destruct (decide (Z.to_nat which = Z.to_nat x)) as [E|Hne].
  - rewrite E in Hl. apply list_lookup_insert_Some in Hl as [(_ & ? & _)|[_ ?]]; done.
  - by rewrite list_lookup_insert_ne in Hl.
Qed.

Lemma clear_loop_only_clears n : ∀ j buffer (fm fm' : Bitmap.t),
  clear_loop K n j buffer fm = Ok fm' →
  length fm' = length fm ∧
  ∀ x, Bitmap.bit fm' x = true → Bitmap.bit fm x = true.
Proof.
  induction n as [|n IH]; intros j buffer fm fm'; cbn [clear_loop].
  - by intros [= <-].
  - destruct (_ <=? j)%nat; [discriminate|].
    intros H. apply bind_Ok in H as (b & _ & H).
    apply bind_Ok in H as ([] & _ & H).
    apply bind_Ok in H as (fm1 & Hc & H).
    unfold Bitmap.Clear in Hc. apply bind_Ok in Hc as ([] & _ & [= <-]).
    apply IH in H as [Hl Hb]. rewrite length_insert in Hl. split; [done|].
    intros x Hx. eapply bit_clear_le, Hb, Hx.
Qed.

(** X7. Whatever its buffer holds, a [Deallocate] that returns has kept the
    length of the free map and set no bit: every sector marked afterwards was
    marked before. *)
Theorem Deallocate_only_clears heap h (fm fm' : Bitmap.t) :
  Deallocate K heap h fm = Ok fm' →
  length fm' = length fm ∧
  ∀ x, Bitmap.bit fm' x = true → Bitmap.bit fm x = true.
Proof.
  unfold Deallocate. generalize (Z.to_nat (numLists h)) O.
  intros n. revert fm. induction n as [|n IH]; intros fm i; cbn [dealloc_lists].
  - by intros [= <-].
  - intros H. apply bind_Ok in H as (fm1 & Hc & H).
    apply clear_loop_only_clears in Hc as [Hl1 Hb1].
    apply IH in H as [Hl Hb]. split; [congruence|]. auto.
Qed.

(** X5. When the free map has at least [numSectors] clear bits but fewer than
    the [numLists * (1 + L)] the loops take, [Allocate] does not return: it
    passes its check and then stops on an [ASSERT] (or runs past
    [dataSectorLists]). *)
Theorem Allocate_gap h (B : Bitmap.t) disk f :
  0 < SectorSize K → 0 < SectorNumPerList K → 0 <= f →
  divRoundUp (divRoundUp f (SectorSize K)) (SectorNumPerList K)
    * SectorNumPerList K <= NumSectors K →
  divRoundUp f (SectorSize K) <= Bitmap.NumClear B
    < divRoundUp (divRoundUp f (SectorSize K)) (SectorNumPerList K)
      * (1 + SectorNumPerList K) →
  Allocate K h B disk f = Abort ∨ Allocate K h B disk f = Fault.
Proof.
  intros HS HL Hf Hd Hgap.
  destruct (Allocate K h B disk f) as [[[[b h'] B'] disk']| |] eqn:H;
    [exfalso | by left | by right].
  destruct b.
  - apply Allocate_true_inv in H.
    pose proof (divRoundUp_nonneg _ _ Hf HS) as HnS.
    pose proof (divRoundUp_nonneg _ _ HnS HL) as HnL.
    cbn [numLists header_of] in H.
    apply alloc_lists_count in H;
      [| lia | rewrite ?Nat.add_0_l, ?Z2Nat.id by done; first [exact Hd | lia]].
    rewrite Z2Nat.id in H by done. unfold Bitmap.NumClear in *. lia.
  - unfold Allocate in H. cbn [numSectors header_of] in H.
    destruct (Bitmap.NumClear B <? _) eqn:E.
    + apply Z.ltb_lt in E. lia.
    + apply bind_Ok in H as ([[h1 B1] d1] & _ & H). discriminate.
Qed.
End FileHdrMore.

(** ** Directories: lookups, round trips and invariants *)

Section DirMore.

Import Dir.

Variable K : Constants.
Abbreviation n_ := (FileNameMaxLen K).

Lemma strncmp0_key n : ∀ a b,
  strncmp0 n a b = true ↔ take n (cstring a) = take n (cstring b).
Proof.
  induction n as [|n IH]; intros a b; [done|]. cbn [strncmp0].
  destruct a as [|x a], b as [|y b]; cbn [hd tail cstring].
  - by rewrite Ascii.eqb_refl.
  - destruct (Ascii.eqb_spec NUL y) as [<-|Hne].
    + by rewrite !Ascii.eqb_refl.
    + rewrite (eqb_NUL_false y) by done. done.
  - destruct (Ascii.eqb_spec x NUL) as [->|Hne]; [done|]. done.
  - destruct (Ascii.eqb_spec x y) as [->|Hne].
    + destruct (Ascii.eqb_spec y NUL) as [->|Hy]; [done|].
      rewrite IH. cbn [take]. split; [by intros -> | by intros [= ->]].
    + destruct (Ascii.eqb_spec x NUL) as [->|Hx];
        destruct (Ascii.eqb_spec y NUL) as [->|Hy]; try done.
      cbn [take]. split; [done | by intros [= ? _]].
Qed.

Lemma matches_key q e :
  matches K q e = true ↔ inUse e = true ∧ name_key K (name e) = name_key K q.
Proof. unfold matches, name_key. by rewrite andb_true_iff, strncmp0_key. Qed.

Lemma FindIndex_from_first (table : Directory) : ∀ i0 i e q,
  table !! i = Some e → matches K q e = true →
  (∀ j e', (j < i)%nat → table !! j = Some e' → matches K q e' = false) →
  FindIndex_from K i0 table q = Z.of_nat (i0 + i).
Proof.
  induction table as [|e0 table IH]; intros i0 i e q Hi Hm Hlow; [done|].
  cbn [FindIndex_from]. fold (matches K q e0). destruct i as [|i].
  - injection Hi as ->. rewrite Hm. f_equal. lia.
  - rewrite (Hlow O e0) by (done || lia).
    rewrite (IH (S i0) i e q); [f_equal; lia | done | done |].
    intros j e' Hj He'. apply (Hlow (S j) e'); [lia | done].
Qed.

Lemma FindIndex_from_inv (table : Directory) : ∀ i0 q,
  (FindIndex_from K i0 table q = -1 ∧ Forall (λ e, matches K q e = false) table) ∨
  (∃ i e, FindIndex_from K i0 table q = Z.of_nat (i0 + i) ∧
          table !! i = Some e ∧ matches K q e = true ∧
          ∀ j e', (j < i)%nat → table !! j = Some e' → matches K q e' = false).
Proof.
  induction table as [|e0 table IH]; intros i0 q; [by left|].
  cbn [FindIndex_from]. fold (matches K q e0).
  destruct (matches K q e0) eqn:E.
  - right. exists O, e0. rewrite Nat.add_0_r. repeat split; try done.
    intros j e' Hj. lia.
  - destruct (IH (S i0) q) as [[H1 H2]|(i & e & H1 & H2 & H3 & H4)].
    + left. split; [done|]. by constructor.
    + right. exists (S i), e. split; [rewrite H1; f_equal; lia|].
      split; [done|]. split; [done|].
      intros [|j] e' Hj He'; [by injection He' as <-|].
      apply (H4 j); [lia | done].
Qed.

(** X8. [FindIndex] returns -1 exactly when no entry in use matches the name
    under [strncmp] with the bound [FileNameMaxLen]; otherwise it returns an
    index inside the table, of an entry in use that matches, before which no
    entry matches. *)
Theorem FindIndex_first_match (table : Directory) (q : list ascii) :
  (FindIndex K table q = -1 ↔ Forall (λ e, matches K q e = false) table) ∧
  (∀ r, FindIndex K table q = r → r ≠ -1 →
     0 <= r < Z.of_nat (length table) ∧
     ∃ e, table !! Z.to_nat r = Some e ∧ inUse e = true ∧
          strncmp0 n_ (name e) q = true ∧
          ∀ j e', (j < Z.to_nat r)%nat → table !! j = Some e' →
                  matches K q e' = false).
Proof.
  unfold FindIndex.
  destruct (FindIndex_from_inv table O q) as [[H1 H2]|(i & e & H1 & H2 & H3 & H4)].
  - split; [done|]. intros r Hr Hne. congruence.
  - cbn [Nat.add] in H1. split.
    + split; [lia|]. intros Hall.
      pose proof (Forall_lookup_1 _ _ _ _ Hall H2) as Hf. cbn beta in Hf. congruence.
    + intros r Hr _. rewrite H1 in Hr. subst r. rewrite Nat2Z.id.
      pose proof (lookup_lt_Some _ _ _ H2). split; [lia|].
      exists e. unfold matches in H3. apply andb_true_iff in H3 as [? ?]. done.
Qed.

Lemma FindIndex_take (table : Directory) q1 q2 :
  take n_ q1 = take n_ q2 → FindIndex K table q1 = FindIndex K table q2.
Proof. intros H. unfold FindIndex. by apply FindIndex_from_take. Qed.

(** X9. Two names that agree on their first [FileNameMaxLen] bytes get the
    same answer from [FindIndex], and their paths in this directory the same
    answer from [Find]. *)
Theorem lookup_ignores_name_tail files (table : Directory) (q1 q2 : list ascii) :
  component q1 → component q2 → take n_ q1 = take n_ q2 →
  FindIndex K table q1 = FindIndex K table q2 ∧
  Find K files table (path_of q1) = Find K files table (path_of q2).
Proof.
  intros (? & ? & ?) (? & ? & ?) Ht. split; [by apply FindIndex_take|].
  by apply Find_top_take.
Qed.

Lemma FindIndex_new (M : nat) q : FindIndex K (Dir.new K M) q = -1.
Proof. apply FindIndex_from_none, Forall_replicate. done. Qed.

Lemma Find_scan_new files term (M : nat) (p : list ascii) : ∀ acc r,
  Find_scan K files term (Dir.new K M) acc p = Ok r → r = -1.
Proof.
  induction p as [|c p IH]; intros acc r; cbn [Find_scan].
  - destruct term; [|discriminate]. unfold lookup_result.
    rewrite FindIndex_new. by intros [= <-].
  - destruct (Ascii.eqb c "/").
    + rewrite FindIndex_new. by intros [= <-].
    + destruct (128 <=? length acc)%nat; [discriminate|]. apply IH.
Qed.

(** X10. In a directory just constructed nothing resolves: [Find] returns -1
    whenever it returns, it does return for every leaf of at most 128 bytes,
    and [Remove] returns failure and changes nothing whenever it returns. *)
Theorem Find_new_directory files (M : nat) :
  (∀ path r, Find K files (Dir.new K M) path = Ok r → r = -1) ∧
  (∀ leaf, component leaf →
     Find K files (Dir.new K M) (path_of leaf) = Ok (-1)) ∧
  (∀ path b (table' : Directory) files',
     Remove K files (Dir.new K M) path = Ok (b, table', files') →
     b = false ∧ table' = Dir.new K M ∧ files' = files).
Proof.
  assert (H1 : ∀ path r, Find K files (Dir.new K M) path = Ok r → r = -1).
  { intros path r. unfold Find, Find_buffer.
    destruct (cstring path); [discriminate|]. apply Find_scan_new. }
  split; [done|]. split.
  - intros leaf (? & ? & ?). rewrite Find_top by done.
    unfold lookup_result. by rewrite FindIndex_new.
  - intros path b table' files' H. unfold Remove in H.
    apply bind_Ok in H as (found & Hf & H). apply H1 in Hf as ->.
    cbn in H. by injection H as <- <- <-.
Qed.

Lemma FetchFrom_length files s : length (FetchFrom K files s) = NumDirEntries K.
Proof.
  unfold FetchFrom. rewrite length_take, length_app, length_replicate. lia.
Qed.

(** X11. A table of [NumDirEntries] entries written back to a sector is the
    table [FetchFrom] loads from that sector, and what is loaded from the
    other sectors is as before. *)
Theorem WriteBack_FetchFrom (table : Directory) files s :
  length table = NumDirEntries K →
  FetchFrom K (WriteBack table files s) s = table ∧
  ∀ s', s' ≠ s → FetchFrom K (WriteBack table files s) s' = FetchFrom K files s'.
Proof.
  intros Hl. unfold FetchFrom, WriteBack. split.
  - rewrite Z.eqb_refl. rewrite <-!app_assoc, take_app_length'; done.
  - intros s' Hne. by apply Z.eqb_neq in Hne as ->.
Qed.

Lemma cstring_NUL_free (l : list ascii) : NUL ∉ cstring l.
Proof.
  induction l as [|c l IH]; cbn [cstring]; [by intros ?%elem_of_nil|].
  destruct (Ascii.eqb_spec c NUL); [by intros ?%elem_of_nil|].
  apply not_elem_of_cons. split; [congruence | done].
Qed.

Lemma cstring_app (l r : list ascii) :
  NUL ∉ l → cstring (l ++ r) = l ++ cstring r.
Proof.
  induction l as [|c l IH]; [done|]. intros [Hc Hl]%not_elem_of_cons.
  cbn [app cstring]. rewrite eqb_NUL_false by done. by rewrite IH.
Qed.

Lemma name_key_plain (q : list ascii) : NUL ∉ q → name_key K q = take n_ q.
Proof. intros H. unfold name_key. by rewrite cstring_id. Qed.

Lemma name_key_strncpy old (File : list ascii) :
  NUL ∉ File → name_key K (strncpy n_ old File) = take n_ File.
Proof.
  intros H. unfold name_key, strncpy.
  destruct (decide (n_ <= length File)%nat) as [Hle|Hgt].
  - rewrite take_app_le by done.
    rewrite cstring_app
      by (intros (k & Hk%list_elem_of_lookup_2 & _)%elem_of_take; done).
    rewrite take_app_le by (rewrite length_take; lia).
    rewrite take_take. f_equal. lia.
  - rewrite take_app_ge by lia. rewrite take_replicate.
    destruct (n_ - length File)%nat as [|m] eqn:E; [lia|].
    rewrite Nat.min_l by lia. rewrite <-app_assoc, cstring_app by done.
    cbn [replicate app cstring]. rewrite Ascii.eqb_refl, app_nil_r.
    done.
Qed.

Lemma lookup_result_none (table : Directory) q :
  valid_sectors table → lookup_result K table q = -1 → FindIndex K table q = -1.
Proof.
  intros Hv. unfold lookup_result, FindIndex.
  destruct (FindIndex_from_inv table O q) as [[H1 _]|(i & e & H1 & H2 & H3 & _)];
    [done|].
  rewrite H1. cbn [Nat.add]. replace (Z.of_nat i =? -1) with false
    by (symmetry; apply Z.eqb_neq; lia).
  unfold sector_at. rewrite Nat2Z.id, H2. intros Hs.
  apply matches_key in H3 as [Hu _].
  pose proof (Forall_lookup_1 _ _ _ _ Hv H2 Hu). done.
Qed.

Lemma FindIndex_none_forall (table : Directory) q :
  FindIndex K table q = -1 → Forall (λ e, matches K q e = false) table.
Proof.
  unfold FindIndex.
  destruct (FindIndex_from_inv table O q) as [[_ H]|(i & e & H1 & _)]; [done|].
  rewrite H1. lia.
Qed.

(** The lookup of the name just stored in the lowest free slot. *)
Lemma FindIndex_after_fill (table : Directory) i e (q : list ascii) sec ty :
  NUL ∉ q → FindIndex K table q = -1 → lowest_free table i e →
  FindIndex K (<[i := new_entry K e q sec ty]> table) q = Z.of_nat i ∧
  sector_at (<[i := new_entry K e q sec ty]> table) (Z.of_nat i) = sec.
Proof.
  intros Hq Hnone (Hi & Hfree & Hlow).
  pose proof (lookup_lt_Some _ _ _ Hi) as Hlt.
  pose proof (FindIndex_none_forall _ _ Hnone) as Hall. split.
  - unfold FindIndex.
    rewrite (FindIndex_from_first _ O i (new_entry K e q sec ty) q); [done| | |].
    + by apply list_lookup_insert_eq.
    + apply matches_key. split; [done|]. cbn [name new_entry].
      by rewrite name_key_strncpy, name_key_plain.
    + intros j e' Hj. rewrite list_lookup_insert_ne by lia. intros He'.
      apply (Forall_lookup_1 _ _ _ _ Hall He').
  - unfold sector_at. rewrite Nat2Z.id, list_lookup_insert_eq by done. done.
Qed.

Lemma last_slash_zero (l : list ascii) :
  last_slash l = Some O → ∃ r, l = "/"%char :: r ∧ "/"%char ∉ r.
Proof.
  destruct l as [|c l]; [discriminate|]. cbn [last_slash].
  destruct (last_slash l) eqn:E; [discriminate|].
  destruct (Ascii.eqb_spec c "/") as [->|]; [|discriminate].
  intros _. exists l. split; [done|]. by apply last_slash_None_inv.
Qed.

Lemma Add_false_inv files (table : Directory) path sec ty (table' : Directory) files' :
  Add K files table path sec ty = Ok (false, table', files') →
  table' = table ∧ files' = files.
Proof.
  unfold Add. intros H. apply bind_Ok in H as (found & _ & H).
  destruct (negb (found =? -1)); [by injection H as <- <-|].
  apply bind_Ok in H as ([[Path File] term] & _ & H).
  destruct Path.
  - apply bind_Ok in H as ([i|] & _ & H); [discriminate|].
    by injection H as <- <-.
  - apply bind_Ok in H as (s & _ & H). apply bind_Ok in H as ([] & _ & H).
    apply bind_Ok in H as ([i|] & _ & H); [discriminate|].
    by injection H as <- <-.
Qed.

(** A successful [Add]: into this table, or into a loaded one. *)
Lemma Add_success_cases files (table : Directory) path sec ty
  (table' : Directory) files' :
  valid_sectors table →
  Add K files table path sec ty = Ok (true, table', files') →
  (∃ File i e,
     (NUL ∉ File) ∧ FindIndex K table File = -1 ∧ lowest_free table i e ∧
     cstring path = "/"%char :: File ∧ ("/"%char ∉ File) ∧
     table' = <[i := new_entry K e File sec ty]> table ∧ files' = files)
  ∨ (table' = table ∧ ∃ k, last_slash (cstring path) = Some (S k)).
Proof.
  intros Hv H. apply Add_true_inv in H as (slash & i & Hfind & Hls & Hlen & H).
  destruct H as [(-> & -> & Hff & ->) | (Hne & -> & _)].
  - left. apply last_slash_zero in Hls as (File & Hc & Hs).
    apply first_free_lowest in Hff as [e He].
    exists File, i, e. rewrite Hc in *. change (drop 1 (_ :: File)) with File in *.
    assert (H0 : NUL ∉ File).
    { pose proof (cstring_NUL_free path) as H0. rewrite Hc in H0.
      by apply not_elem_of_cons in H0 as [_ ?]. }
    unfold Find in Hfind. rewrite Hc in Hfind. cbn [Find_buffer] in Hfind.
    rewrite Find_scan_leaf in Hfind by (done || simpl; lia).
    injection Hfind as Hfind. cbn [app] in Hfind.
    apply lookup_result_none in Hfind; [|done].
    rewrite (fill_slot_lowest _ _ _ _ _ _ _ He).
    repeat (split; [done|]). done.
  - right. split; [done|]. destruct slash; [done|]. eauto.
Qed.

(** X12. When no entry in use has the sector -1, a successful [Add] of a leaf
    of this directory leaves the files alone and makes [Find] of that path
    return the new sector; and, the new sector not being -1, a second [Add]
    of the path is refused and changes nothing. *)
Theorem Add_then_Find files (table : Directory) leaf sec ty
  (table' : Directory) files' :
  component leaf → valid_sectors table →
  Add K files table (path_of leaf) sec ty = Ok (true, table', files') →
  files' = files ∧
  Find K files' table' (path_of leaf) = Ok sec ∧
  (sec ≠ -1 → ∀ sec2 ty2,
     Add K files' table' (path_of leaf) sec2 ty2 = Ok (false, table', files')).
Proof.
  intros (H0 & Hs & Hl) Hv H.
  apply (Add_success_cases _ _ _ _ _ _ _ Hv) in H
    as [(File & i & e & HF0 & Hnone & He & Hc & _ & -> & ->)|[_ [k Hk]]].
  2:{ unfold path_of in Hk. rewrite cstring_id in Hk
        by (apply not_elem_of_cons; done).
      cbn [last_slash] in Hk. rewrite last_slash_None in Hk by done.
      by rewrite Ascii.eqb_refl in Hk. }
  unfold path_of in Hc. rewrite cstring_id in Hc by (apply not_elem_of_cons; done).
  injection Hc as <-.
  destruct (FindIndex_after_fill table i e leaf sec ty H0 Hnone He) as [Hi Hsec].
  assert (Hfind : Find K files (<[i:=new_entry K e leaf sec ty]> table) (path_of leaf)
                  = Ok sec).
  { rewrite Find_top by done. unfold lookup_result. rewrite Hi.
    replace (Z.of_nat i =? -1) with false by (symmetry; apply Z.eqb_neq; lia).
    by rewrite Hsec. }
  split; [done|]. split; [done|].
  intros Hsec' sec2 ty2. unfold Add. rewrite Hfind. cbn [mbind outcome_bind].
  by apply Z.eqb_neq in Hsec' as ->.
Qed.

(** X13. When no entry in use has the sector -1, a successful [Add] leaves
    every name that [FindIndex] found where it was: same index, same
    sector. *)
Theorem Add_keeps_lookups files (table : Directory) path sec ty
  (table' : Directory) files' (q : list ascii) :
  valid_sectors table →
  Add K files table path sec ty = Ok (true, table', files') →
  FindIndex K table q ≠ -1 →
  FindIndex K table' q = FindIndex K table q ∧
  sector_at table' (FindIndex K table q) = sector_at table (FindIndex K table q).
Proof.
  intros Hv H Hq.
  apply (Add_success_cases _ _ _ _ _ _ _ Hv) in H
    as [(File & i & e & HF0 & Hnone & He & _ & _ & -> & ->)|[-> _]]; [|done].
  destruct He as (Hi & Hfree & _).
  pose proof (FindIndex_none_forall _ _ Hnone) as Hall.
  unfold FindIndex in *.
  destruct (FindIndex_from_inv table O q) as [[H1 _]|(j & ej & H1 & H2 & H3 & H4)];
    [done|].
  rewrite H1. cbn [Nat.add].
  assert (Hji : j ≠ i).
  { intros ->. apply matches_key in H3 as [Hu _]. congruence. }
  split.
  - rewrite (FindIndex_from_first _ O j ej q); [done| |done|].
    + by rewrite list_lookup_insert_ne.
    + intros k e' Hk. destruct (decide (k = i)) as [->|Hne].
      * pose proof (lookup_lt_Some _ _ _ Hi).
        rewrite list_lookup_insert_eq by done. intros [= <-].
        destruct (matches K q (new_entry K e File sec ty)) eqn:Em; [|done].
        apply matches_key in Em as [_ Em]. cbn [name new_entry] in Em.
        rewrite name_key_strncpy in Em by done.
        apply matches_key in H3 as [Hu H3].
        pose proof (Forall_lookup_1 _ _ _ _ Hall H2) as Hn. cbn beta in Hn.
        assert (matches K File ej = true); [|congruence].
        apply matches_key. split; [done|].
        rewrite (name_key_plain File) by done. congruence.
      * rewrite list_lookup_insert_ne by done. apply H4, Hk.
  - unfold sector_at. rewrite Nat2Z.id. by rewrite list_lookup_insert_ne.
Qed.

(** X14. A directory just constructed has no entry in use with sector -1 and
    no two names in use that agree on their first [FileNameMaxLen] bytes; and
    every [Add] of a sector other than -1 that returns keeps both. *)
Theorem Add_keeps_invariants :
  (∀ M : nat, valid_sectors (Dir.new K M) ∧ distinct_names K (Dir.new K M)) ∧
  (∀ files (table : Directory) path sec ty b (table' : Directory) files',
     valid_sectors table → distinct_names K table → sec ≠ -1 →
     Add K files table path sec ty = Ok (b, table', files') →
     valid_sectors table' ∧ distinct_names K table').
Proof.
  split.
  - intros M. split.
    + apply Forall_replicate. done.
    + intros i j ei ej _ Hi _ Hu. apply lookup_replicate in Hi as [-> _]. done.
  - intros files table path sec ty b table' files' Hv Hd Hsec H.
    destruct b; [|by apply Add_false_inv in H as [-> _]].
    apply (Add_success_cases _ _ _ _ _ _ _ Hv) in H
      as [(File & i & e & HF0 & Hnone & He & _ & _ & -> & _)|[-> _]]; [|done].
    destruct He as (Hi & Hfree & _).
    pose proof (lookup_lt_Some _ _ _ Hi) as Hlt.
    pose proof (FindIndex_none_forall _ _ Hnone) as Hall.
    assert (Hnew : ∀ j ej, table !! j = Some ej → inUse ej = true →
                   name_key K (name ej) ≠ take n_ File).
    { intros j ej Hj Hu Hk.
      pose proof (Forall_lookup_1 _ _ _ _ Hall Hj) as Hn. cbn beta in Hn.
      assert (matches K File ej = true); [|congruence].
      apply matches_key. split; [done|]. by rewrite (name_key_plain File). }
    split.
    + apply Forall_insert; [done|]. intros _. done.
    + intros i1 i2 e1 e2 Hne H1 H2 Hu1 Hu2.
      destruct (decide (i1 = i)) as [->|Hn1]; destruct (decide (i2 = i)) as [->|Hn2];
        [done| | |].
      * rewrite list_lookup_insert_eq in H1 by done. injection H1 as <-.
        rewrite list_lookup_insert_ne in H2 by done.
        cbn [name new_entry]. rewrite name_key_strncpy by done.
        intros Hk. by apply (Hnew i2 e2).
      * rewrite list_lookup_insert_eq in H2 by done. injection H2 as <-.
        rewrite list_lookup_insert_ne in H1 by done.
        cbn [name new_entry]. rewrite name_key_strncpy by done.
        by apply (Hnew i1 e1).
      * rewrite list_lookup_insert_ne in H1, H2 by done.
        by apply (Hd i1 i2).
Qed.

(** X15. In a table whose names in use differ within their first
    [FileNameMaxLen] bytes, [FindIndex] of the name stored in an entry in
    use returns the index of that entry. *)
Theorem FindIndex_own_name (table : Directory) (i : nat) e :
  distinct_names K table → table !! i = Some e → inUse e = true →
  FindIndex K table (name e) = Z.of_nat i.
Proof.
  intros Hd Hi Hu. unfold FindIndex.
  rewrite (FindIndex_from_first _ O i e (name e)); [done|done| |].
  - apply matches_key. done.
  - intros j e' Hj He'. destruct (matches K (name e) e') eqn:Em; [|done].
    apply matches_key in Em as [Hu' Hk]. by destruct (Hd j i e' e ltac:(lia)).
Qed.

(** *** Paths through one subdirectory *)

Lemma nested_path_cstring (d x : list ascii) :
  NUL ∉ d → NUL ∉ x → cstring (nested_path d x) = nested_path d x.
Proof.
  intros Hd Hx. apply cstring_id. unfold nested_path.
  rewrite not_elem_of_cons, not_elem_of_app, not_elem_of_cons. done.
Qed.

Lemma last_slash_app (l r : list ascii) k :
  last_slash r = Some k → last_slash (l ++ r) = Some (length l + k)%nat.
Proof.
  intros Hr. induction l as [|c l IH]; [done|].
  cbn [app last_slash length Nat.add]. by rewrite IH.
Qed.

Lemma drop_past_cons {A} (l : list A) c r :
  drop (S (length l)) (l ++ c :: r) = r.
Proof. induction l as [|a l IH]; [done|]. exact IH. Qed.

Lemma nested_path_split (d x : list ascii) :
  "/"%char ∉ x → (length d <= 128)%nat → (length x <= 9)%nat →
  split_path (nested_path d x) = Ok (path_of d, x, true).
Proof.
  intros Hx Hd Hl. unfold split_path, nested_path.
  change ("/"%char :: d ++ "/"%char :: x) with (("/"%char :: d) ++ "/"%char :: x).
  rewrite (last_slash_app _ _ O)
    by (cbn [last_slash]; by rewrite last_slash_None, Ascii.eqb_refl).
  rewrite Nat.add_0_r.
  rewrite take_app_length.
  rewrite drop_past_cons.
  replace (9 <? length x)%nat with false by (symmetry; apply Nat.ltb_ge; lia).
  replace (256 <? length ("/"%char :: d))%nat with false
    by (symmetry; apply Nat.ltb_ge; simpl; lia).
  replace (length ("/"%char :: d) <? 256)%nat with true
    by (symmetry; apply Nat.ltb_lt; simpl; lia).
  done.
Qed.

(** [Find] walks one component and descends. *)
Lemma Find_scan_component files term (table : Directory) (d rest : list ascii) :
  ∀ acc, "/"%char ∉ d → (length acc + length d <= 128)%nat →
  Find_scan K files term table acc (d ++ "/"%char :: rest) =
  if FindIndex K table (acc ++ d) =? -1 then Ok (-1)
  else
    _ ← OpenFile K (sector_at table (FindIndex K table (acc ++ d)));
    Find_scan K files term
      (FetchFrom K files (sector_at table (FindIndex K table (acc ++ d)))) [] rest.
Proof.
  induction d as [|c d IH]; intros acc Hs Hlen.
  - rewrite app_nil_r. cbn [app Find_scan]. by rewrite Ascii.eqb_refl.
  - apply not_elem_of_cons in Hs as [Hc Hs]. cbn [app Find_scan].
    replace (Ascii.eqb c "/") with false by (symmetry; by apply Ascii.eqb_neq).
    replace (128 <=? length acc)%nat with false
      by (symmetry; apply Nat.leb_gt; simpl in Hlen; lia).
    rewrite IH; [| done | rewrite length_app; simpl in *; lia].
    by rewrite <-app_assoc.
Qed.

Lemma Find_nested files (table : Directory) (d x : list ascii) :
  component d → component x →
  Find K files table (nested_path d x) =
  if FindIndex K table d =? -1 then Ok (-1)
  else
    _ ← OpenFile K (sector_at table (FindIndex K table d));
    Ok (lookup_result K (FetchFrom K files (sector_at table (FindIndex K table d))) x).
Proof.
  intros (Hd0 & Hds & Hdl) (Hx0 & Hxs & Hxl). unfold Find.
  rewrite nested_path_cstring by done. unfold nested_path. cbn [Find_buffer].
  rewrite Find_scan_component by (done || simpl; lia). cbn [app].
  destruct (_ =? -1); [done|]. destruct (OpenFile K _); [|done..].
  cbn [mbind outcome_bind]. by rewrite Find_scan_leaf by (done || simpl; lia).
Qed.

Lemma Find_buffer_parent files (table : Directory) (d : list ascii) :
  component d →
  Find_buffer K files true table (path_of d) = Ok (lookup_result K table d).
Proof.
  intros (Hd0 & Hds & Hdl). unfold path_of. cbn [Find_buffer].
  by rewrite Find_scan_leaf by (done || simpl; lia).
Qed.

Lemma lookup_result_in_range (table : Directory) q :
  sector_in_range K (lookup_result K table q) = true →
  FindIndex K table q ≠ -1 ∧
  lookup_result K table q = sector_at table (FindIndex K table q).
Proof.
  unfold lookup_result. destruct (FindIndex K table q =? -1) eqn:E.
  - unfold sector_in_range. cbn. done.
  - apply Z.eqb_neq in E. done.
Qed.

Lemma FetchFrom_WriteBack (table : Directory) files s :
  length table = NumDirEntries K →
  FetchFrom K (WriteBack table files s) s = table.
Proof.
  intros Hl. unfold FetchFrom, WriteBack.
  rewrite Z.eqb_refl. rewrite <-!app_assoc, take_app_length'; done.
Qed.

(** X16. When the subdirectory loaded for "d" has no entry in use with sector
    -1, a successful [Add] of "/d/x" leaves the table of this directory as
    it is and makes [Find] of "/d/x", on the files after it, return the new
    sector. *)
Theorem nested_Add_then_Find files (table : Directory) (d x : list ascii) sec ty
  (table' : Directory) files' :
  component d → component x →
  valid_sectors (FetchFrom K files (lookup_result K table d)) →
  Add K files table (nested_path d x) sec ty = Ok (true, table', files') →
  table' = table ∧ Find K files' table (nested_path d x) = Ok sec.
Proof.
  intros Hd Hx Hv H. pose proof Hd as (Hd0 & Hds & Hdl).
  pose proof Hx as (Hx0 & Hxs & Hxl).
  unfold Add in H. rewrite Find_nested in H by done.
  rewrite nested_path_cstring in H by done.
  apply bind_Ok in H as (found & Hfound & H).
  destruct (negb (found =? -1)) eqn:Ef; [discriminate|].
  apply negb_false_iff, Z.eqb_eq in Ef as ->.
  apply bind_Ok in H as ([[Path File] term] & Hsplit & H).
  assert (Hx9 : (length x <= 9)%nat).
  { apply split_path_Ok in Hsplit as (slash & Hls & _ & HF & Hlen).
    unfold nested_path in Hls, HF.
    change ("/"%char :: d ++ "/"%char :: x)
      with (("/"%char :: d) ++ "/"%char :: x) in Hls, HF.
    rewrite (last_slash_app _ _ O) in Hls
      by (cbn [last_slash]; by rewrite last_slash_None, Ascii.eqb_refl).
    injection Hls as <-. rewrite Nat.add_0_r in HF.
    rewrite (drop_past_cons ("/"%char :: d)) in HF. by subst File. }
  rewrite nested_path_split in Hsplit by done. injection Hsplit as <- <- <-.
  unfold path_of in H. cbv iota in H. fold (path_of d) in H.
  rewrite Find_buffer_parent in H by done. cbn [mbind outcome_bind] in H.
  apply bind_Ok in H as ([] & Ho%ASSERT_Ok & H).
  apply lookup_result_in_range in Ho as [Hdi Hds'].
  apply bind_Ok in H as (slot & Hff & H).
  destruct slot as [i|]; [|discriminate]. injection H as <- <-.
  split; [done|].
  apply Z.eqb_neq in Hdi. rewrite Hdi in Hfound.
  rewrite <-Hds' in Hfound.
  set (s := lookup_result K table d) in *.
  apply bind_Ok in Hfound as ([] & Hopen & Hfound). injection Hfound as Hfound.
  apply lookup_result_none in Hfound; [|exact Hv].
  apply first_free_lowest in Hff as [e He].
  rewrite (fill_slot_lowest _ _ _ _ _ _ _ He).
  rewrite Find_nested by done. rewrite Hdi, <-Hds'. fold s. rewrite Hopen.
  cbn [mbind outcome_bind].
  rewrite FetchFrom_WriteBack by (rewrite length_insert; apply FetchFrom_length).
  destruct (FindIndex_after_fill _ i e x sec ty Hx0 Hfound He) as [Hi Hsec].
  unfold lookup_result. rewrite Hi.
  replace (Z.of_nat i =? -1) with false by (symmetry; apply Z.eqb_neq; lia).
  by rewrite Hsec.
Qed.

Lemma FindIndex_after_clear (table : Directory) (q : list ascii) :
  distinct_names K table → FindIndex K table q ≠ -1 →
  FindIndex K (clear_slot table (FindIndex K table q)) q = -1.
Proof.
  intros Hd Hq. unfold FindIndex in *.
  destruct (FindIndex_from_inv table O q) as [[H1 _]|(i & e & H1 & H2 & H3 & _)];
    [done|].
  rewrite H1. cbn [Nat.add]. unfold clear_slot. rewrite Nat2Z.id, H2.
  apply FindIndex_from_none. apply Forall_forall. intros e' Hin.
  fold (matches K q e').
  apply list_elem_of_lookup in Hin as [k Hk].
  destruct (decide (k = i)) as [->|Hne].
  - pose proof (lookup_lt_Some _ _ _ H2).
    rewrite list_lookup_insert_eq in Hk by done. by injection Hk as <-.
  - rewrite list_lookup_insert_ne in Hk by done.
    destruct (matches K q e') eqn:Em; [|done].
    apply matches_key in Em as [Hu' Hk']. apply matches_key in H3 as [Hu H3].
    destruct (Hd k i e' e Hne Hk H2 Hu' Hu). congruence.
Qed.

(** X17. When the names in use of the subdirectory loaded for "d" differ
    within their first [FileNameMaxLen] bytes, a successful [Remove] of
    "/d/x" leaves the table of this directory as it is; afterwards [Find] of
    "/d/x" returns -1 and a second [Remove] returns failure. *)
Theorem nested_Remove_then_Find files (table : Directory) (d x : list ascii)
  (table' : Directory) files' :
  component d → component x →
  distinct_names K (FetchFrom K files (lookup_result K table d)) →
  Remove K files table (nested_path d x) = Ok (true, table', files') →
  table' = table ∧
  Find K files' table (nested_path d x) = Ok (-1) ∧
  Remove K files' table (nested_path d x) = Ok (false, table, files').
Proof.
  intros Hd Hx Hdist H. pose proof Hd as (Hd0 & Hds & Hdl).
  pose proof Hx as (Hx0 & Hxs & Hxl).
  unfold Remove in H. rewrite Find_nested in H by done.
  rewrite nested_path_cstring in H by done.
  apply bind_Ok in H as (found & Hfound & H).
  destruct (found =? -1) eqn:Ef; [discriminate|].
  apply bind_Ok in H as ([[Path File] term] & Hsplit & H).
  assert (Hx9 : (length x <= 9)%nat).
  { apply split_path_Ok in Hsplit as (slash & Hls & _ & HF & Hlen).
    unfold nested_path in Hls, HF.
    change ("/"%char :: d ++ "/"%char :: x)
      with (("/"%char :: d) ++ "/"%char :: x) in Hls, HF.
    rewrite (last_slash_app _ _ O) in Hls
      by (cbn [last_slash]; by rewrite last_slash_None, Ascii.eqb_refl).
    injection Hls as <-. rewrite Nat.add_0_r in HF.
    rewrite (drop_past_cons ("/"%char :: d)) in HF. by subst File. }
  rewrite nested_path_split in Hsplit by done. injection Hsplit as <- <- <-.
  unfold path_of in H. cbv iota in H. fold (path_of d) in H.
  rewrite Find_buffer_parent in H by done. cbn [mbind outcome_bind] in H.
  apply bind_Ok in H as ([] & Ho & H). pose proof Ho as Hopen.
  apply ASSERT_Ok, lookup_result_in_range in Ho as [Hdi Hds'].
  set (s := lookup_result K table d) in *.
  destruct (FindIndex K (FetchFrom K files s) x =? -1) eqn:Ex; [discriminate|].
  injection H as <- <-. apply Z.eqb_neq in Ex.
  assert (Hfind : Find K (WriteBack (clear_slot (FetchFrom K files s)
                             (FindIndex K (FetchFrom K files s) x)) files s)
                    table (nested_path d x) = Ok (-1)).
  { rewrite Find_nested by done. apply Z.eqb_neq in Hdi. rewrite Hdi, <-Hds'.
    fold (OpenFile K s) in Hopen. rewrite Hopen. cbn [mbind outcome_bind].
    rewrite FetchFrom_WriteBack.
    - unfold lookup_result. rewrite FindIndex_after_clear; [done | exact Hdist | done].
    - unfold clear_slot. destruct (_ !! _); rewrite ?length_insert;
        apply FetchFrom_length. }
  split; [done|]. split; [done|].
  unfold Remove. rewrite Hfind. done.
Qed.

(** X18. When "d" is not in this directory, [Find] of "/d/x" returns -1 and
    [Remove] returns failure without a change, but [Add] does not return: it
    opens the sector -1 that [Find] gave for the parent. *)
Theorem missing_parent files (table : Directory) (d x : list ascii) sec ty :
  component d → component x → (length x <= 9)%nat →
  FindIndex K table d = -1 →
  Find K files table (nested_path d x) = Ok (-1) ∧
  Remove K files table (nested_path d x) = Ok (false, table, files) ∧
  Add K files table (nested_path d x) sec ty = Abort.
Proof.
  intros Hd Hx Hx9 Hnone. pose proof Hd as (Hd0 & Hds & Hdl).
  pose proof Hx as (Hx0 & Hxs & Hxl).
  assert (Hfind : Find K files table (nested_path d x) = Ok (-1)).
  { rewrite Find_nested by done. by rewrite Hnone. }
  split; [done|]. split.
  - unfold Remove. by rewrite Hfind.
  - unfold Add. rewrite Hfind. cbn [mbind outcome_bind Z.eqb negb].
    rewrite nested_path_cstring, nested_path_split by done.
    cbn [mbind outcome_bind]. unfold path_of at 1. cbv iota.
    fold (path_of d). rewrite Find_buffer_parent by done.
    unfold lookup_result. rewrite Hnone. done.
Qed.

(** *** List *)

Lemma print_name_new_entry (leaf : list ascii) sec ty :
  short_name K leaf →
  print_name (name (new_entry K (zero_entry K) leaf sec ty)) = Ok leaf.
Proof.
  intros (H0 & _ & Hl). unfold print_name. cbn [name new_entry zero_entry].
  rewrite strncpy_short by done.
  replace (drop n_ (replicate (S n_) NUL)) with [NUL]
    by (rewrite drop_replicate; by replace (S n_ - n_)%nat with 1%nat by lia).
  assert (E : existsb (Ascii.eqb NUL) (leaf ++ replicate (n_ - length leaf) NUL ++ [NUL])
              = true).
  { rewrite !existsb_app. cbn. by rewrite !orb_true_r. }
  rewrite E. f_equal. rewrite cstring_app by done.
  destruct (n_ - length leaf)%nat; cbn; by rewrite app_nil_r.
Qed.

Lemma List_from_free (m : nat) : ∀ i,
  List_from i (replicate m (zero_entry K)) = Ok [].
Proof. induction m as [|m IH]; intros i; [done|]. cbn. apply IH. Qed.

Lemma List_from_added (items : list (list ascii * Z * ascii)) : ∀ i m,
  Forall (short_name K) (leaves items) →
  List_from i
    (((λ it, new_entry K (zero_entry K) it.1.1 it.1.2 it.2) <$> items)
     ++ replicate m (zero_entry K))
  = Ok (lines_from i items).
Proof.
  induction items as [|[[leaf sec] ty] items IH]; intros i m Hs.
  - apply List_from_free.
  - cbn [leaves fmap list_fmap fst snd] in Hs. fold (leaves items) in Hs.
    apply Forall_cons in Hs as [Hl Hs].
    cbn [fmap list_fmap app List_from lines_from fst snd]. 
    change (inUse (new_entry K (zero_entry K) leaf sec ty)) with true. cbv iota.
    rewrite print_name_new_entry by done. cbn [mbind outcome_bind].
    fold (fmap (M:=list) (λ it : list ascii * Z * ascii,
            new_entry K (zero_entry K) it.1.1 it.1.2 it.2) items).
    rewrite IH by done. done.
Qed.

(** What a run of Adds of fresh short names leaves. *)
Lemma Add_each_table files (items : list (list ascii * Z * ascii)) :
  ∀ names (used : Directory) m,
  (n_ <= 9)%nat →
  Forall2 (holds K) names used → Forall (short_name K) names →
  Forall (short_name K) (leaves items) → NoDup (names ++ leaves items) →
  (length items <= m)%nat →
  Add_each K files (used ++ replicate m (zero_entry K)) items =
    Ok (replicate (length items) true,
        (used ++ ((λ it, new_entry K (zero_entry K) it.1.1 it.1.2 it.2) <$> items))
          ++ replicate (m - length items) (zero_entry K), files).
Proof.
  induction items as [|[[leaf sec] ty] items IH]; intros names used m Hn Hh Hs Hl Hd Hm.
  - cbn [Add_each length replicate fmap list_fmap].
    by rewrite Nat.sub_0_r, app_nil_r.
  - cbn [leaves fmap list_fmap fst] in Hl, Hd. fold (leaves items) in Hl, Hd.
    apply Forall_cons in Hl as [Hleaf Hl].
    assert (Hnot : leaf ∉ names).
    { apply NoDup_app in Hd as (_ & Hd & _). intros Hin.
      apply (Hd _ Hin). left. }
    destruct m as [|m]; [simpl in Hm; lia|].
    cbn [Add_each]. rewrite (Add_fresh K files names) by done.
    cbn [mbind outcome_bind].
    rewrite (IH (names ++ [leaf])
               (used ++ [new_entry K (zero_entry K) leaf sec ty]) m); try done.
    + cbn [mbind outcome_bind length replicate Nat.sub fmap list_fmap fst snd].
      by rewrite <-!app_assoc.
    + apply Forall2_app; [done|]. constructor; [|done].
      apply holds_new_entry. apply Hleaf.
    + apply Forall_app. split; [done|]. by constructor.
    + by rewrite <-app_assoc.
    + simpl in Hm. lia.
Qed.

(** X19. After a run of [Add]s of pairwise different short names to a
    directory just constructed, with room for all of them, [List] prints one
    line per name, in the order of the [Add]s: the index from 0 on, the name
    and the type. *)
Theorem List_after_Adds files (M : nat) (items : list (list ascii * Z * ascii)) :
  (n_ <= 9)%nat → (length items <= M)%nat →
  Forall (short_name K) (leaves items) → NoDup (leaves items) →
  ∃ table : Directory,
    Add_each K files (Dir.new K M) items
      = Ok (replicate (length items) true, table, files) ∧
    List table = Ok (lines_from O items).
Proof.
  intros Hn HM Hs Hd. eexists. split.
  - rewrite new_table.
    apply (Add_each_table files items [] [] M); (done || constructor).
  - cbn [app]. unfold List. by apply List_from_added.
Qed.

Lemma in_use_keys_elem (table : Directory) i e :
  table !! i = Some e → inUse e = true →
  name_key K (name e) ∈ in_use_keys K table.
Proof.
  intros Hi Hu. unfold in_use_keys. apply list_elem_of_omap.
  exists e. split; [by eapply list_elem_of_lookup_2|]. by rewrite Hu.
Qed.

(** Distinct names, checked on the list of the names in use. *)
Lemma distinct_names_check (table : Directory) :
  NoDup (in_use_keys K table) → distinct_names K table.
Proof.
  induction table as [|e0 table IH]; intros Hnd.
  - intros i j ei ej _ Hi. done.
  - assert (Hrest : NoDup (in_use_keys K table) ∧
                    (inUse e0 = true → name_key K (name e0) ∉ in_use_keys K table)).
    { unfold in_use_keys in *. cbn [omap list_omap] in Hnd.
      destruct (inUse e0).
      - apply NoDup_cons in Hnd as [? ?]. done.
      - done. }
    destruct Hrest as [Hnd' Hfresh]. specialize (IH Hnd').
    intros [|i] [|j] ei ej Hne Hi Hj Hu1 Hu2; [done| | |].
    + injection Hi as <-. intros Hk. apply (Hfresh Hu1). rewrite Hk.
      by eapply in_use_keys_elem.
    + injection Hj as <-. intros Hk. apply (Hfresh Hu2). rewrite <-Hk.
      by eapply in_use_keys_elem.
    + apply (IH i j); (done || lia).
Qed.












End DirMore.

(** ** The statements at concrete inputs *)

Ltac not_in_list :=
  let H := fresh in
  intros H; vm_compute in H;
  repeat (apply elem_of_cons in H as [H|H]; [discriminate H|]);
  by apply elem_of_nil in H.

Ltac is_short_name := split; [not_in_list | split; [not_in_list | vm_compute; lia]].


Lemma ByteToSector_translates_witness :
  (∃ s v, FileHdr.dataSectorLists one_sector_header !! O = Some s ∧
          one_sector_disk s !! 0%nat = Some v ∧
          FileHdr.ByteToSector nachos one_sector_header one_sector_disk 100 = Ok v) ∧
  (∃ h (B' : Bitmap.t) (disk' : Disk),
     FileHdr.Allocate nachos (FileHdr.new nachos) fresh_map disk0 (128 * (32 + 1))
       = Ok (true, h, B', disk') ∧
     ∃ s0 s1, FileHdr.dataSectorLists h !! O = Some s0 ∧
              FileHdr.dataSectorLists h !! 1%nat = Some s1 ∧ s0 ≠ s1).
Proof.
  destruct (ByteToSector_translates nachos) as [P1 P2]; [reflexivity | reflexivity |].
  split.
  - apply (P1 one_sector_header one_sector_disk 100).
    + reflexivity.
    + reflexivity.
    + vm_compute. discriminate.
    + intros [|i] s Hi Hs.
      * injection Hs as <-. reflexivity.
      * cbn [FileHdr.numLists one_sector_header] in Hi. lia.
    + intros s. unfold one_sector_disk. destruct (s =? 2); reflexivity.
    + reflexivity.
    + split; [discriminate | reflexivity].
  - eexists _, _, _. split; [vm_compute; reflexivity|].
    edestruct (P2 (FileHdr.new nachos) fresh_map disk0)
      as (_ & _ & s0 & s1 & H0 & H1 & Hne & _).
    { vm_compute. reflexivity. }
    exists s0, s1. eauto.
Defined.


Lemma nested_path_leaves_table_witness :
  ∃ files1,
    Dir.Add nachos empty_files root_d (chars "/d/x") 77 "F"
      = Ok (true, root_d, files1) ∧
    ∃ s i,
      Dir.Find_buffer nachos empty_files true root_d (chars "/d") = Ok s ∧
      files1 = Dir.WriteBack
                 (Dir.fill_slot nachos (Dir.FetchFrom nachos empty_files s) i
                    (chars "x") 77 "F")
                 empty_files s.
Proof.
  eexists. split; [vm_compute; reflexivity|].
  destruct (nested_path_leaves_table nachos empty_files root_d (chars "/d/x")
              77 "F"%char 1%nat eq_refl) as [HA _].
  edestruct HA as [_ H].
  { vm_compute. reflexivity. }
  exact H.
Defined.

Ltac is_component := split; [not_in_list | split; [not_in_list | vm_compute; lia]].

Ltac keys_differ := vm_compute; repeat (constructor; [not_in_list|]); constructor.

Ltac sectors_valid := vm_compute; repeat constructor; intros; discriminate.

Lemma Allocate_only_marks_witness :
  ∃ h (B' : Bitmap.t) (disk' : Disk),
    FileHdr.Allocate nachos (FileHdr.new nachos) used_map disk0 128
      = Ok (true, h, B', disk') ∧
    length B' = length used_map ∧
    Bitmap.bit B' 3 = true ∧ disk' 3 = disk0 3.
Proof.
  eexists _, _, _. split; [vm_compute; reflexivity|].
  edestruct (Allocate_only_marks nachos (FileHdr.new nachos) used_map disk0 128 true)
    as [Hl Hk].
  { vm_compute. reflexivity. }
  split; [exact Hl|]. apply (Hk 3). reflexivity.
Defined.

Lemma Allocate_cost_witness :
  ∃ h (B' : Bitmap.t) (disk' : Disk),
    FileHdr.Allocate nachos (FileHdr.new nachos) fresh_map disk0 (128 * 33)
      = Ok (true, h, B', disk') ∧
    FileHdr.numLists h = 2 ∧
    Bitmap.NumClear fresh_map
      = Bitmap.NumClear B' + FileHdr.numLists h * (1 + SectorNumPerList nachos).
Proof.
  eexists _, _, _. split; [vm_compute; reflexivity|].
  eapply (Allocate_cost nachos (FileHdr.new nachos) fresh_map disk0 (128 * 33)).
  - reflexivity.
  - reflexivity.
  - discriminate.
  - discriminate.
  - vm_compute. reflexivity.
Defined.

Lemma Allocate_index_sectors_witness :
  ∃ h (B' : Bitmap.t) (disk' : Disk),
    FileHdr.Allocate nachos (FileHdr.new nachos) fresh_map disk0 (128 * 33)
      = Ok (true, h, B', disk') ∧
    ∃ s, FileHdr.dataSectorLists h !! 1%nat = Some s ∧
         Bitmap.bit fresh_map s = false ∧ Bitmap.bit B' s = true ∧
         sector_in_range nachos s = true.
Proof.
  eexists _, _, _. split; [vm_compute; reflexivity|].
  edestruct (Allocate_index_sectors nachos (FileHdr.new nachos) fresh_map disk0
               (128 * 33)) as [Hk _].
  { vm_compute. reflexivity. }
  apply (Hk 1%nat). reflexivity.
Defined.

Lemma ByteToSector_after_Allocate_witness :
  ∃ h (B' : Bitmap.t) (disk' : Disk),
    FileHdr.Allocate nachos (FileHdr.new nachos) fresh_map disk0 (128 * 33)
      = Ok (true, h, B', disk') ∧
    ∃ v, FileHdr.ByteToSector nachos h disk' 4100 = Ok v ∧
         Bitmap.bit fresh_map v = false ∧ Bitmap.bit B' v = true.
Proof.
  eexists _, _, _. split; [vm_compute; reflexivity|].
  eapply (ByteToSector_after_Allocate nachos (FileHdr.new nachos) fresh_map disk0
           (128 * 33)).
  - reflexivity.
  - reflexivity.
  - discriminate.
  - vm_compute. reflexivity.
  - split; [discriminate | reflexivity].
Defined.

Lemma Allocate_gap_witness :
  FileHdr.Allocate nachos (FileHdr.new nachos) last_bit_map disk0 128 = Abort ∨
  FileHdr.Allocate nachos (FileHdr.new nachos) last_bit_map disk0 128 = Fault.
Proof.
  apply (Allocate_gap nachos (FileHdr.new nachos) last_bit_map disk0 128).
  - reflexivity.
  - reflexivity.
  - discriminate.
  - discriminate.
  - split; [discriminate | reflexivity].
Defined.

Lemma Deallocate_only_clears_witness :
  ∃ fm' : Bitmap.t,
    FileHdr.Deallocate nachos (λ _ _, 3) one_sector_header used_map = Ok fm' ∧
    length fm' = length used_map ∧
    (Bitmap.bit fm' 2 = true → Bitmap.bit used_map 2 = true).
Proof.
  eexists. split; [vm_compute; reflexivity|].
  edestruct (Deallocate_only_clears nachos (λ _ _, 3) one_sector_header used_map)
    as [Hl Hk].
  { vm_compute. reflexivity. }
  split; [exact Hl | exact (Hk 2)].
Defined.

Lemma lookup_ignores_name_tail_witness :
  Dir.FindIndex nachos root_d (chars "abcdefghiX")
    = Dir.FindIndex nachos root_d (chars "abcdefghiY") ∧
  Dir.Find nachos empty_files root_d (Dir.path_of (chars "abcdefghiX"))
    = Dir.Find nachos empty_files root_d (Dir.path_of (chars "abcdefghiY")).
Proof.
  apply (lookup_ignores_name_tail nachos empty_files root_d).
  - is_component.
  - is_component.
  - reflexivity.
Defined.

Lemma WriteBack_FetchFrom_witness :
  Dir.FetchFrom nachos (Dir.WriteBack root_d empty_files 1) 1 = root_d.
Proof.
  apply (proj1 (WriteBack_FetchFrom nachos root_d empty_files 1 eq_refl)).
Defined.

Lemma Add_then_Find_witness :
  ∃ table' : Dir.Directory,
    Dir.Add nachos empty_files root_d (Dir.path_of (chars "a")) 17 "F"
      = Ok (true, table', empty_files) ∧
    Dir.Find nachos empty_files table' (Dir.path_of (chars "a")) = Ok 17 ∧
    Dir.Add nachos empty_files table' (Dir.path_of (chars "a")) 18 "F"
      = Ok (false, table', empty_files).
Proof.
  eexists. split; [vm_compute; reflexivity|].
  edestruct (Add_then_Find nachos empty_files root_d (chars "a") 17 "F"%char)
    as (_ & HF & HA).
  - is_component.
  - sectors_valid.
  - vm_compute. reflexivity.
  - split; [exact HF|]. apply HA. discriminate.
Defined.

Lemma Add_keeps_lookups_witness :
  Dir.Add nachos empty_files root_d (Dir.path_of (chars "a")) 17 "F"
    = Ok (true, Dir.fill_slot nachos root_d 1 (chars "a") 17 "F", empty_files) ∧
  Dir.FindIndex nachos (Dir.fill_slot nachos root_d 1 (chars "a") 17 "F") (chars "d")
    = Dir.FindIndex nachos root_d (chars "d").
Proof.
  split; [vm_compute; reflexivity|].
  apply (Add_keeps_lookups nachos empty_files root_d (Dir.path_of (chars "a"))
           17 "F"%char (Dir.fill_slot nachos root_d 1 (chars "a") 17 "F")
           empty_files (chars "d")).
  - sectors_valid.
  - vm_compute. reflexivity.
  - vm_compute. discriminate.
Defined.

Lemma FindIndex_own_name_witness :
  ∃ e, Dir.fill_slot nachos root_d 1 (chars "a") 17 "F" !! 1%nat = Some e ∧
       Dir.inUse e = true ∧
       Dir.FindIndex nachos (Dir.fill_slot nachos root_d 1 (chars "a") 17 "F")
         (Dir.name e) = 1.
Proof.
  eexists. split; [reflexivity|]. split; [reflexivity|].
  apply (FindIndex_own_name nachos
           (Dir.fill_slot nachos root_d 1 (chars "a") 17 "F") 1%nat).
  - apply distinct_names_check. keys_differ.
  - reflexivity.
  - reflexivity.
Defined.

Lemma nested_Add_then_Find_witness :
  ∃ files1,
    Dir.Add nachos empty_files root_d (Dir.nested_path (chars "d") (chars "x"))
      77 "F" = Ok (true, root_d, files1) ∧
    Dir.Find nachos files1 root_d (Dir.nested_path (chars "d") (chars "x"))
      = Ok 77.
Proof.
  eexists. split; [vm_compute; reflexivity|].
  edestruct (nested_Add_then_Find nachos empty_files root_d (chars "d") (chars "x")
               77 "F"%char) as [_ HF].
  - is_component.
  - is_component.
  - sectors_valid.
  - vm_compute. reflexivity.
  - exact HF.
Defined.

Lemma nested_Remove_then_Find_witness :
  ∃ files1,
    Dir.Remove nachos files_dx root_d (Dir.nested_path (chars "d") (chars "x"))
      = Ok (true, root_d, files1) ∧
    Dir.Find nachos files1 root_d (Dir.nested_path (chars "d") (chars "x"))
      = Ok (-1).
Proof.
  eexists. split; [vm_compute; reflexivity|].
  edestruct (nested_Remove_then_Find nachos files_dx root_d (chars "d") (chars "x"))
    as (_ & HF & _).
  - is_component.
  - is_component.
  - apply distinct_names_check. keys_differ.
  - vm_compute. reflexivity.
  - exact HF.
Defined.

Lemma missing_parent_witness :
  Dir.Find nachos empty_files (Dir.new nachos 10)
    (Dir.nested_path (chars "d") (chars "x")) = Ok (-1) ∧
  Dir.Remove nachos empty_files (Dir.new nachos 10)
    (Dir.nested_path (chars "d") (chars "x"))
    = Ok (false, Dir.new nachos 10, empty_files) ∧
  Dir.Add nachos empty_files (Dir.new nachos 10)
    (Dir.nested_path (chars "d") (chars "x")) 77 "F" = Abort.
Proof.
  apply (missing_parent nachos empty_files (Dir.new nachos 10) (chars "d")
           (chars "x") 77 "F"%char).
  - is_component.
  - is_component.
  - vm_compute. lia.
  - reflexivity.
Defined.

Lemma List_after_Adds_witness :
  ∃ table : Dir.Directory,
    Dir.Add_each nachos empty_files (Dir.new nachos 2)
      [(chars "a", 10, "F"%char); (chars "b", 11, "D"%char)]
      = Ok ([true; true], table, empty_files) ∧
    Dir.List table = Ok [(0, chars "a", "F"%char); (1, chars "b", "D"%char)].
Proof.
  apply (List_after_Adds nachos empty_files 2%nat
           [(chars "a", 10, "F"%char); (chars "b", 11, "D"%char)]).
  - vm_compute. lia.
  - vm_compute. lia.
  - cbn. constructor; [is_short_name|]. constructor; [is_short_name|].
    constructor.
  - cbn. repeat (constructor; [not_in_list|]). constructor.
Defined.
